(** * Storyboarder XR scene manager: resource resolver and attachment cache

    A shallow embedding of [getFilepathForLoadable] and of the
    [useAttachmentLoader] hook (its reducer and its two effects) of the XR
    scene manager, with the properties of the asset cache stated over it.

    JavaScript objects used as dictionaries are finite maps with string keys;
    a property read of an absent key gives [VUndefined].  Every id that is
    dispatched to the reducer is an output of [getFilepathForLoadable]
    (a path starting with "/data/", or null) or a key already in the cache,
    so no id names a member inherited from Object.prototype and the
    prototype chain is left out of the model.  The order of the keys of an
    object is not modelled: no property below depends on it.

    React is outside the source.  What is taken from it: the reducer is
    applied to the dispatched actions in the order of their dispatch; the
    state that a render of the hook reads has every action dispatched
    before that render reduced into it; a memo callback runs in a render
    when one of its dependencies has changed. *)

From stdpp Require Import gmap strings list fin_maps.
From Stdlib Require Import ZArith Lia Ascii.

Local Open Scope string_scope.
Local Open Scope list_scope.

(** ** JavaScript values and completions *)

(** A [throw] ends the evaluation of a function; the only error the modelled
    code can raise is the TypeError of a property read on null/undefined. *)
Inductive JsError := TypeError.

Inductive completion (A : Type) :=
| Normal (a : A)
| Throw (e : JsError).
Arguments Normal {A} a.
Arguments Throw {A} e.

(** Numbers as [Math.floor(a / b) * 100] can produce them from two integers:
    a finite integer (the sign of zero is not tracked), an infinity or NaN. *)
Inductive JsNumber :=
| Num (z : Z)
| PosInfinity
| NegInfinity
| NaN.

(** The values stored in a cache entry.  [VObject] is an object owned by a
    collaborator (a decoded glTF scene, an error event), known by a handle. *)
Inductive Val :=
| VUndefined
| VNull
| VStr (s : string)
| VProgress (loaded total : Z) (percent : JsNumber)
| VObject (handle : nat).

(** ToBoolean. *)
Definition truthy (v : Val) : bool :=
  match v with
  | VUndefined | VNull => false
  | VStr s => negb (String.eqb s "")
  | VProgress _ _ _ | VObject _ => true
  end.

(** An object literal is the map of its own properties. *)
Abbreviation Entry := (gmap string Val).
Abbreviation State := (gmap string Entry).

(** [o.p] on an object. *)
Definition get (o : Entry) (p : string) : Val := default VUndefined (o !! p).

(** A string-or-null as a value, and as a property key: [obj[null]] reads
    and writes the property named "null". *)
Definition val_of_id (id : option string) : Val :=
  match id with
  | None => VNull
  | Some s => VStr s
  end.

Definition to_key (id : option string) : string :=
  match id with
  | None => "null"
  | Some s => s
  end.

(** ** getFilepathForLoadable *)

(** [model.match(/\//)] is non-null exactly when the string has a slash. *)
Fixpoint has_slash (s : string) : bool :=
  match s with
  | EmptyString => false
  | String c r => if Ascii.eqb c "/"%char then true else has_slash r
  end.

(** [model.split(/\//)] *)
Fixpoint split_slash (s : string) : list string :=
  match s with
  | EmptyString => [""]
  | String c r =>
      if Ascii.eqb c "/"%char then "" :: split_slash r
      else match split_slash r with
           | h :: t => String c h :: t
           | [] => [String c ""]
           end
  end.

(** [`${parts[parts.length - 1]}`]: an index out of range reads undefined. *)
Definition last_part (parts : list string) : string :=
  match parts !! (length parts - 1)%nat with
  | Some f => f
  | None => "undefined"
  end.

Definition getFilepathForLoadable (type : string) (model : option string)
  : completion (option string) :=
  match model with
  | None => Throw TypeError
  | Some model =>
      let isUserModel := has_slash model in
      if isUserModel then
        let parts := split_slash model in
        let filename := last_part parts in
        if String.eqb type "character" then
          Normal (Some ("/data/user/characters/" +:+ filename))
        else if String.eqb type "object" then
          Normal (Some ("/data/user/objects/" +:+ filename))
        else if String.eqb type "environment" then
          Normal (Some ("/data/user/environments/" +:+ filename))
        else Normal None
      else
        if String.eqb type "character" then
          Normal (Some ("/data/system/dummies/gltf/" +:+ model +:+ ".glb"))
        else if String.eqb type "object" then
          Normal (Some ("/data/system/objects/" +:+ model +:+ ".glb"))
        else Normal None
  end.

(** ** The reducer of useAttachmentLoader *)

(** The progress event of the loader carries two byte counts. *)
Record ProgressEvent := { ev_loaded : Z; ev_total : Z }.

(** [action.payload]: [id] is a resolved path or null; a field that a
    dispatch site does not set is undefined ([None] for [progress]). *)
Record Payload := {
  id : option string;
  progress : option ProgressEvent;
  value : Val;
  error : Val
}.

Record Action := { action_type : string; payload : Payload }.

(** [Math.floor(loaded / total) * 100] on integer byte counts.  The floor
    of the double quotient is the floor of the exact one for operands below
    2^53, and for all 0 <= loaded <= total (a quotient of two doubles
    loaded < total rounds below 1). *)
Definition percent_of (loaded total : Z) : JsNumber :=
  if (total =? 0)%Z then
    if (loaded =? 0)%Z then NaN
    else if (0 <? loaded)%Z then PosInfinity else NegInfinity
  else Num (loaded / total * 100)%Z.

Definition reducer (state : State) (action : Action) : completion State :=
  let k := to_key (id (payload action)) in
  if String.eqb (action_type action) "PENDING" then
    match state !! k with
    | Some _ => Normal state
    | None => Normal (<[k := {[ "status" := VStr "NotAsked" ]}]> state)
    end
  else if String.eqb (action_type action) "LOAD" then
    match state !! k with
    | None => Throw TypeError
    | Some entry =>
        if truthy (get entry "loading") then Normal state
        else Normal (<[k := <["progress" := VUndefined]>
                               {[ "status" := VStr "Loading" ]}]> state)
    end
  else if String.eqb (action_type action) "PROGRESS" then
    match progress (payload action) with
    | None => Throw TypeError
    | Some p =>
        Normal (<[k := <["progress" :=
                           VProgress (ev_loaded p) (ev_total p)
                             (percent_of (ev_loaded p) (ev_total p))]>
                         {[ "0" := val_of_id (id (payload action)) ]}]> state)
    end
  else if String.eqb (action_type action) "SUCCESS" then
    Normal (<[k := <["value" := value (payload action)]>
                     {[ "status" := VStr "Success" ]}]> state)
  else if String.eqb (action_type action) "ERROR" then
    Normal (<[k := <["error" := error (payload action)]>
                     {[ "status" := VStr "Error" ]}]> state)
  else Normal state.

(** The actions the hook dispatches. *)
Definition no_payload (i : option string) : Payload :=
  {| id := i; progress := None; value := VUndefined; error := VUndefined |}.

Definition PENDING (i : option string) : Action :=
  {| action_type := "PENDING"; payload := no_payload i |}.

Definition LOAD (k : string) : Action :=
  {| action_type := "LOAD"; payload := no_payload (Some k) |}.

Definition PROGRESS (k : string) (p : ProgressEvent) : Action :=
  {| action_type := "PROGRESS";
     payload := {| id := Some k; progress := Some p;
                   value := VUndefined; error := VUndefined |} |}.

Definition SUCCESS (k : string) (v : Val) : Action :=
  {| action_type := "SUCCESS";
     payload := {| id := Some k; progress := None;
                   value := v; error := VUndefined |} |}.

Definition ERROR (k : string) (e : Val) : Action :=
  {| action_type := "ERROR";
     payload := {| id := Some k; progress := None;
                   value := VUndefined; error := e |} |}.

(** ** The hook: its state, the loader and the two effects *)

(** A scene object as the hook reads it.  [model] is [None] for null or
    undefined, [loaded] is [None] when the flag is not set. *)
Record SceneObject := {
  type : string;
  model : option string;
  loaded : option bool
}.

Record Environment := { file : option string }.
Record World := { environment : Environment }.

(** The scene description: object id to scene object, in insertion order. *)
Abbreviation SceneObjects := (list (string * SceneObject)).

Definition Object_values (sceneObjects : SceneObjects) : list SceneObject :=
  sceneObjects.*2.

(** [o.model === s] *)
Definition model_is (m : option string) (s : string) : bool :=
  match m with
  | Some t => String.eqb t s
  | None => false
  end.

(** [v.status === s] *)
Definition status_is (entry : Entry) (s : string) : bool :=
  match get entry "status" with
  | VStr t => String.eqb t s
  | _ => false
  end.

(** The descriptor pushed for the environment file. *)
Definition environment_loadable (f : string) : SceneObject :=
  {| type := "environment"; model := Some f; loaded := None |}.

Definition loadables (sceneObjects : SceneObjects) (world : World)
  : list SceneObject :=
  let loadables :=
    List.filter (fun o => negb (String.eqb (type o) "object" && model_is (model o) "box"))
      (List.filter (fun o => negb (match loaded o with Some true => true | _ => false end))
         (List.filter (fun o => match model o with Some _ => true | None => false end)
            (Object_values sceneObjects))) in
  match file (environment world) with
  | Some f =>
      if truthy (VStr f) then loadables ++ [environment_loadable f]
      else loadables
  | None => loadables
  end.

(** What the hook owns: the reducer state, and the trace of the calls it
    made to [gltfLoader.load] (the url of each call). *)
Record Hook := { attachments : State; loaderCalls : list string }.

(** Code of the hook reads and updates [Hook] and may throw; what it did
    before a throw stays done. *)
Definition Eff (A : Type) : Type := Hook → completion A * Hook.

Definition eff_ret {A} (a : A) : Eff A := fun h => (Normal a, h).

Definition eff_bind {A B} (m : Eff A) (k : A → Eff B) : Eff B := fun h =>
  match m h with
  | (Normal a, h') => k a h'
  | (Throw e, h') => (Throw e, h')
  end.

Notation "m >>> k" := (eff_bind m (fun _ => k))
  (at level 62, right associativity).

(** [dispatch(action)]: React applies the reducer to the queued actions in
    the order of their dispatch, before the hook is rendered again. *)
Definition dispatch (action : Action) : Eff unit := fun h =>
  match reducer (attachments h) action with
  | Normal state => (Normal (), {| attachments := state; loaderCalls := loaderCalls h |})
  | Throw e => (Throw e, h)
  end.

(** [gltfLoader.load(k, onLoad, onProgress, onError)]: the request starts;
    its callbacks arrive later as dispatched actions. *)
Definition gltfLoader_load (k : string) : Eff unit := fun h =>
  (Normal (), {| attachments := attachments h; loaderCalls := loaderCalls h ++ [k] |}).

Fixpoint forEach {A} (f : A → Eff unit) (l : list A) : Eff unit :=
  match l with
  | [] => eff_ret ()
  | x :: rest => f x >>> forEach f rest
  end.

(** The first memo of the hook, run when [sceneObjects] changes. *)
Definition request (o : SceneObject) : Eff unit := fun h =>
  match getFilepathForLoadable (type o) (model o) with
  | Normal i => dispatch (PENDING i) h
  | Throw e => (Throw e, h)
  end.

Definition requestEffect (sceneObjects : SceneObjects) (world : World) : Eff unit :=
  forEach request (loadables sceneObjects world).

(** The second memo, run when [attachments] changes: it goes through the
    entries that are NotAsked in the state of this render. *)
Definition not_asked (attachments : State) : list string :=
  (List.filter (fun kv => status_is (snd kv) "NotAsked")
     (map_to_list attachments)).*1.

Definition beginLoad (k : string) : Eff unit :=
  gltfLoader_load k >>> dispatch (LOAD k).

Definition beginLoadEffect (attachments : State) : Eff unit :=
  forEach beginLoad (not_asked attachments).

(** [useMemo(callback, deps)], used for the effect of the callback: it
    runs in a render when a dependency has changed since the render before
    (and at the mount). *)
Definition useMemo (depsChanged : bool) (callback : Eff unit) : Eff unit :=
  if depsChanged then callback else eff_ret ().

(** One render of the hook.  [attachments] is the state of this render:
    what the memos dispatch is reduced in the order of the dispatches, and
    is not in the state that the second memo reads. *)
Definition useAttachmentLoader (sceneObjects : SceneObjects) (world : World)
    (sceneObjectsChanged attachmentsChanged : bool) : Eff State := fun h =>
  let attachments := attachments h in
  (useMemo sceneObjectsChanged (requestEffect sceneObjects world)
   >>> useMemo attachmentsChanged (beginLoadEffect attachments)
   >>> eff_ret attachments) h.

(** What can happen to the mounted hook: it is rendered, or an action is
    dispatched between two renders (a callback of the loader, or any other
    event). *)
Inductive LoopEvent :=
| Rendered (sceneObjects : SceneObjects) (world : World)
    (sceneObjectsChanged attachmentsChanged : bool)
| Dispatched (action : Action).

Definition step (ev : LoopEvent) : Eff unit :=
  match ev with
  | Rendered sceneObjects world sceneObjectsChanged attachmentsChanged =>
      useAttachmentLoader sceneObjects world sceneObjectsChanged attachmentsChanged
      >>> eff_ret ()
  | Dispatched action => dispatch action
  end.

(** A throw unmounts the component: the loop stops there. *)
Fixpoint run (evs : list LoopEvent) (h : Hook) : Hook :=
  match evs with
  | [] => h
  | ev :: rest =>
      match step ev h with
      | (Normal _, h') => run rest h'
      | (Throw _, h') => h'
      end
  end.

(** [useReducer(reducer, {})] *)
Definition mounted : Hook := {| attachments := ∅; loaderCalls := [] |}.

(** ** The vocabulary of the statements *)

(** The reference has a path separator in it. *)
Definition contains_separator (s : string) : Prop :=
  ∃ dir rest, s = dir +:+ "/" +:+ rest.

(** The property key that an action reads and writes. *)
Definition key_of (action : Action) : string := to_key (id (payload action)).

(** The five object literals of the reducer. *)
Definition not_asked_entry : Entry := {[ "status" := VStr "NotAsked" ]}.
Definition loading_entry : Entry :=
  <["progress" := VUndefined]> {[ "status" := VStr "Loading" ]}.
Definition progress_entry (i : option string) (p : ProgressEvent) : Entry :=
  <["progress" := VProgress (ev_loaded p) (ev_total p)
                    (percent_of (ev_loaded p) (ev_total p))]>
    {[ "0" := val_of_id i ]}.
Definition success_entry (v : Val) : Entry :=
  <["value" := v]> {[ "status" := VStr "Success" ]}.
Definition error_entry (e : Val) : Entry :=
  <["error" := e]> {[ "status" := VStr "Error" ]}.

(** No entry of the state has a [loading] property. *)
Definition no_loading (state : State) : Prop :=
  ∀ k entry, state !! k = Some entry → entry !! "loading" = None.

(** The key has an entry, and the entry is not NotAsked. *)
Definition asked (state : State) (k : string) : Prop :=
  ∃ entry, state !! k = Some entry ∧ status_is entry "NotAsked" = false.

(** What holds of the hook from its mount on: the loader was called at most
    once with each url, and each url it was called with has an entry that
    is no longer NotAsked. *)
Record hook_inv (h : Hook) : Prop := {
  inv_calls : NoDup (loaderCalls h);
  inv_asked : ∀ k, k ∈ loaderCalls h → asked (attachments h) k;
  inv_no_loading : no_loading (attachments h)
}.

(** What the three filters keep. *)
Definition wanted (o : SceneObject) : Prop :=
  model o ≠ None ∧ loaded o ≠ Some true ∧
  ¬ (type o = "object" ∧ model o = Some "box").

#[global] Instance wanted_dec (o : SceneObject) : Decision (wanted o).
Proof. unfold wanted. apply _. Defined.

(** The descriptors pushed for the environment file. *)
Definition environment_loadables (world : World) : list SceneObject :=
  match file (environment world) with
  | Some f => if decide (f = "") then [] else [environment_loadable f]
  | None => []
  end.

(** ** Sample scenes and cache states *)

Definition scenario_objects : SceneObjects :=
  [ ("a", {| type := "character"; model := Some "ORC"; loaded := None |});
    ("b", {| type := "object"; model := Some "box"; loaded := None |});
    ("c", {| type := "light"; model := None; loaded := None |}) ].

Definition no_environment : World := {| environment := {| file := None |} |}.

Definition orc_url : string := "/data/system/dummies/gltf/ORC.glb".

Definition orc_loading : Hook :=
  {| attachments := {[ orc_url := loading_entry ]}; loaderCalls := [orc_url] |}.

Definition chair_url : string := "/data/system/objects/chair.glb".

Definition chair_loaded : State := {[ chair_url := success_entry (VObject 1) ]}.

Definition lamp : SceneObject :=
  {| type := "light"; model := None; loaded := None |}.
Definition orc : SceneObject :=
  {| type := "character"; model := Some "ORC"; loaded := None |}.

Definition forest_world : World :=
  {| environment := {| file := Some "scenes/forest.glb" |} |}.

Definition bare_environment : World :=
  {| environment := {| file := Some "forest.glb" |} |}.

Definition two_entries : State :=
  <[orc_url := loading_entry]> {[ chair_url := not_asked_entry ]}.

(** ** The readers of the cache *)

(** [attachments[key] && attachments[key].value]: an entry is an object,
    so the conjunction is its [value] whenever the key has an entry. *)
Definition getModelData (attachments : State) (sceneObject : SceneObject)
  : completion Val :=
  match getFilepathForLoadable (type sceneObject) (model sceneObject) with
  | Throw e => Throw e
  | Normal key =>
      match attachments !! to_key key with
      | None => Normal VUndefined
      | Some entry => Normal (get entry "value")
      end
  end.

(** The elements that the scene content returns, with their [key] and,
    for a character and an object, their [modelData] (a scene object has no
    [modelData] property of its own that the spread would put over it). *)
Inductive Element :=
| SGCamera (key : nat) (sceneObject : SceneObject)
| SGCharacter (key : nat) (modelData : Val) (sceneObject : SceneObject)
| SGModel (key : nat) (modelData : Val) (sceneObject : SceneObject)
| SGSpotLight (key : nat) (sceneObject : SceneObject).

(** The callback of the map over the scene objects: a [switch] on the type
    without a default, so that any other type gives undefined. *)
Definition sceneElement (attachments : State) (i : nat) (sceneObject : SceneObject)
  : completion (option Element) :=
  if String.eqb (type sceneObject) "camera" then
    Normal (Some (SGCamera i sceneObject))
  else if String.eqb (type sceneObject) "character" then
    match getModelData attachments sceneObject with
    | Normal modelData => Normal (Some (SGCharacter i modelData sceneObject))
    | Throw e => Throw e
    end
  else if String.eqb (type sceneObject) "object" then
    match getModelData attachments sceneObject with
    | Normal modelData => Normal (Some (SGModel i modelData sceneObject))
    | Throw e => Throw e
    end
  else if String.eqb (type sceneObject) "light" then
    Normal (Some (SGSpotLight i sceneObject))
  else Normal None.

(** [array.map((x, i) => ...)] from the index [i] on: a throw of the
    callback ends the map. *)
Fixpoint Array_map {A B} (f : nat → A → completion B) (i : nat) (l : list A)
  : completion (list B) :=
  match l with
  | [] => Normal []
  | x :: rest =>
      match f i x with
      | Throw e => Throw e
      | Normal y =>
          match Array_map f (S i) rest with
          | Throw e => Throw e
          | Normal ys => Normal (y :: ys)
          end
      end
  end.

(** What [SceneContent] returns: the elements of the scene objects, with
    the undefined ones filtered out ([.filter(Boolean)]). *)
Definition SceneContent (attachments : State) (sceneObjects : SceneObjects)
  : completion (list Element) :=
  match Array_map (sceneElement attachments) 0 (Object_values sceneObjects) with
  | Normal elements => Normal (omap (fun e => e) elements)
  | Throw e => Throw e
  end.

(** The [modelData] of [SGWorld]:
    [world.environment.file && getModelData({ model: ..., type: 'environment' })]. *)
Definition worldModelData (attachments : State) (world : World) : completion Val :=
  match file (environment world) with
  | None => Normal VNull
  | Some f =>
      if truthy (VStr f) then getModelData attachments (environment_loadable f)
      else Normal (VStr f)
  end.

(** ** The hook driven by React and the loader *)

(** The three callbacks given to [gltfLoader.load(k, ...)]: the loader
    calls them for a key it was called with. *)
Inductive loader_callback (h : Hook) : Action → Prop :=
| callback_success k v : k ∈ loaderCalls h → loader_callback h (SUCCESS k v)
| callback_progress k p : k ∈ loaderCalls h → loader_callback h (PROGRESS k p)
| callback_error k e : k ∈ loaderCalls h → loader_callback h (ERROR k e).

(** The states of the hook from its mount on, when nothing but its own
    renders and the callbacks of the loader dispatch to it. *)
Inductive mounted_run : Hook → Prop :=
| run_mount : mounted_run mounted
| run_render h sceneObjects world sceneObjectsChanged attachmentsChanged :
    mounted_run h →
    mounted_run
      (useAttachmentLoader sceneObjects world sceneObjectsChanged attachmentsChanged h).2
| run_callback h action :
    mounted_run h → loader_callback h action → mounted_run (dispatch action h).2.

(** An entry is one of the five literals of the reducer. *)
Definition literal_entry (entry : Entry) : Prop :=
  entry = not_asked_entry ∨ entry = loading_entry
  ∨ (∃ i p, entry = progress_entry i p)
  ∨ (∃ v, entry = success_entry v)
  ∨ (∃ e, entry = error_entry e).

Definition literal_entries (state : State) : Prop :=
  ∀ k entry, state !! k = Some entry → literal_entry entry.

(** The key is the key of a descriptor that some scene makes loadable. *)
Definition requestable (k : string) : Prop :=
  ∃ sceneObjects world o i,
    o ∈ loadables sceneObjects world
    ∧ getFilepathForLoadable (type o) (model o) = Normal i
    ∧ k = to_key i.

Definition keys_requestable (h : Hook) : Prop :=
  ∀ k, is_Some (attachments h !! k) → requestable k.

(** Every entry is NotAsked or the loader was called with its key. *)
Definition loaded_unless_not_asked (h : Hook) : Prop :=
  ∀ k entry, attachments h !! k = Some entry →
             status_is entry "NotAsked" = true ∨ k ∈ loaderCalls h.

(** The types that the scene content has an element for, and those whose
    element reads the cache. *)
Definition rendered_type (o : SceneObject) : Prop :=
  type o ∈ ["camera"; "character"; "object"; "light"].

#[global] Instance rendered_type_dec (o : SceneObject) : Decision (rendered_type o).
Proof. unfold rendered_type. apply _. Defined.

Definition reads_model (o : SceneObject) : Prop :=
  type o = "character" ∨ type o = "object".

Definition element_object (e : Element) : SceneObject :=
  match e with
  | SGCamera _ o | SGCharacter _ _ o | SGModel _ _ o | SGSpotLight _ o => o
  end.

Definition element_key (e : Element) : nat :=
  match e with
  | SGCamera i _ | SGCharacter i _ _ | SGModel i _ _ | SGSpotLight i _ => i
  end.

Definition element_model_data (e : Element) : option Val :=
  match e with
  | SGCharacter _ modelData _ | SGModel _ modelData _ => Some modelData
  | SGCamera _ _ | SGSpotLight _ _ => None
  end.

Definition box_object : SceneObject :=
  {| type := "object"; model := Some "box"; loaded := None |}.

Definition box_url : string := "/data/system/objects/box.glb".

(** * Properties *)

Example resolve_orc :
  getFilepathForLoadable "character" (Some "ORC")
  = Normal (Some "/data/system/dummies/gltf/ORC.glb").
Proof. reflexivity. Qed.

Example resolve_oak :
  getFilepathForLoadable "object" (Some "assets/chairs/oak.glb")
  = Normal (Some "/data/user/objects/oak.glb").
Proof. reflexivity. Qed.

Example reducer_pending_empty :
  reducer ∅ (PENDING (Some "/a")) = Normal {[ "/a" := {[ "status" := VStr "NotAsked" ]} ]}.
Proof. reflexivity. Qed.

Example scenario_loadables :
  loadables scenario_objects no_environment
  = [ {| type := "character"; model := Some "ORC"; loaded := None |} ].
Proof. reflexivity. Qed.

Example scenario_run :
  run [Rendered scenario_objects no_environment true true;
       Rendered scenario_objects no_environment false true;
       Rendered scenario_objects no_environment false true;
       Dispatched (SUCCESS "/data/system/dummies/gltf/ORC.glb" (VObject 7))]
      mounted
  = {| attachments :=
         {[ "/data/system/dummies/gltf/ORC.glb" :=
              <["value" := VObject 7]> {[ "status" := VStr "Success" ]} ]};
       loaderCalls := ["/data/system/dummies/gltf/ORC.glb"] |}.
Proof. vm_compute. reflexivity. Qed.

(** ** Strings: the separator and the final path segment *)

Lemma has_slash_app (a b : string) :
  has_slash (a +:+ b) = has_slash a || has_slash b.
Proof.
  induction a as [|c a IH]; simpl; [done|].
  destruct (Ascii.eqb c "/"); [done|apply IH].
Qed.

Lemma has_slash_spec (s : string) :
  has_slash s = true ↔ contains_separator s.
Proof.
  split.
  - induction s as [|c r IH]; simpl; [done|].
    destruct (Ascii.eqb_spec c "/") as [->|Hc].
    + intros _. by exists "", r.
    + intros H. destruct (IH H) as (dir & rest & ->).
      by exists (String c dir), rest.
  - intros (dir & rest & ->). rewrite has_slash_app. simpl.
    apply orb_true_r.
Qed.

Lemma last_part_last (parts : list string) (f : string) :
  last parts = Some f → last_part parts = f.
Proof. unfold last_part. rewrite last_lookup, Nat.sub_1_r. by intros ->. Qed.

Lemma split_slash_bare (s : string) :
  has_slash s = false → split_slash s = [s].
Proof.
  induction s as [|c r IH]; simpl; [done|].
  destruct (Ascii.eqb c "/"); [done|]. intros H. by rewrite (IH H).
Qed.

(** With a slash in it, the string splits into at least two parts and the
    last one is the text after the last slash. *)
Lemma split_slash_user (s : string) :
  has_slash s = true →
  ∃ dir f h t, s = dir +:+ "/" +:+ f ∧ has_slash f = false ∧
               split_slash s = h :: t ∧ last t = Some f.
Proof.
  induction s as [|c r IH]; simpl; [done|].
  destruct (Ascii.eqb_spec c "/") as [->|Hc].
  - intros _. destruct (has_slash r) eqn:Hr.
    + destruct (IH eq_refl) as (dir & f & h & t & -> & Hf & -> & Hl).
      exists (String "/" dir), f, "", (h :: t). repeat split; [done|].
      by rewrite last_cons, Hl.
    + exists "", r, "", [r]. by rewrite (split_slash_bare r Hr).
  - intros Hr. destruct (IH Hr) as (dir & f & h & t & -> & Hf & -> & Hl).
    by exists (String c dir), f, (String c h), t.
Qed.

Lemma last_part_user (s : string) :
  has_slash s = true →
  ∃ dir, s = dir +:+ "/" +:+ last_part (split_slash s) ∧
         has_slash (last_part (split_slash s)) = false.
Proof.
  intros H. destruct (split_slash_user s H) as (dir & f & h & t & Hs & Hf & Hsp & Hl).
  exists dir. rewrite Hsp.
  assert (last_part (h :: t) = f) as ->; [|done].
  apply last_part_last. rewrite last_cons. by rewrite Hl.
Qed.

(** ** The reducer, branch by branch *)

(** Every result of the reducer is the state itself or the state with one
    of the five literal entries written at the key of the action. *)
Lemma reducer_result (state state' : State) (action : Action) :
  reducer state action = Normal state' →
  state' = state ∨
  ∃ entry, state' = <[key_of action := entry]> state ∧
    ((entry = not_asked_entry ∧ state !! key_of action = None) ∨
     entry = loading_entry ∨
     (∃ p, entry = progress_entry (id (payload action)) p) ∨
     (∃ v, entry = success_entry v) ∨
     (∃ e, entry = error_entry e)).
Proof.
  unfold reducer, key_of. intros H.
  repeat case_match; simplify_eq; eauto 10.
Qed.

Lemma reducer_frame (state state' : State) (action : Action) (k : string) :
  reducer state action = Normal state' →
  k ≠ key_of action →
  state' !! k = state !! k.
Proof.
  intros H Hk. destruct (reducer_result _ _ _ H) as [->|(entry & -> & _)]; [done|].
  by rewrite lookup_insert_ne.
Qed.

Lemma reducer_default (state : State) (action : Action) :
  action_type action ∉ ["PENDING"; "LOAD"; "PROGRESS"; "SUCCESS"; "ERROR"] →
  reducer state action = Normal state.
Proof.
  intros H.
  assert (∀ s, s ∈ ["PENDING"; "LOAD"; "PROGRESS"; "SUCCESS"; "ERROR"] →
               String.eqb (action_type action) s = false) as Hneq.
  { intros s Hs. apply String.eqb_neq. intros E. apply H. by rewrite E. }
  unfold reducer. by rewrite !Hneq by set_solver.
Qed.

Lemma reducer_no_loading (state state' : State) (action : Action) :
  no_loading state →
  reducer state action = Normal state' →
  no_loading state'.
Proof.
  intros Hs H k entry Hk.
  destruct (reducer_result _ _ _ H) as [->|(e & -> & He)]; [by eapply Hs|].
  destruct (decide (k = key_of action)) as [->|Hne].
  - rewrite lookup_insert_eq in Hk. simplify_eq.
    destruct He as [[-> _]|[->|[[p ->]|[[v ->]|[v ->]]]]]; done.
  - rewrite lookup_insert_ne in Hk by done. by eapply Hs.
Qed.

Lemma reducer_asked (state state' : State) (action : Action) (k : string) :
  asked state k →
  reducer state action = Normal state' →
  asked state' k.
Proof.
  intros (entry & Hk & Hst) H.
  destruct (reducer_result _ _ _ H) as [->|(e & -> & He)]; [by exists entry|].
  destruct (decide (k = key_of action)) as [->|Hne].
  - exists e. rewrite lookup_insert_eq. split; [done|].
    destruct He as [[-> Hnone]|[->|[[p ->]|[[v ->]|[v ->]]]]]; try done.
    congruence.
  - exists entry. by rewrite lookup_insert_ne.
Qed.

(** ** Lists *)

Lemma elem_of_List_filter {A} (f : A → bool) (l : list A) (x : A) :
  x ∈ List.filter f l ↔ x ∈ l ∧ f x = true.
Proof. rewrite !list_elem_of_In. apply filter_In. Qed.

Lemma NoDup_fst_List_filter {A B} (f : A * B → bool) (l : list (A * B)) :
  NoDup (l.*1) → NoDup ((List.filter f l).*1).
Proof.
  induction l as [|x l IH]; simpl; [done|].
  rewrite NoDup_cons. intros [Hx Hl]. destruct (f x); simpl; [|by apply IH].
  apply NoDup_cons. split; [|by apply IH].
  intros Hin. apply Hx. apply list_elem_of_fmap in Hin as (y & -> & Hy).
  apply elem_of_List_filter in Hy as [Hy _].
  apply list_elem_of_fmap. by exists y.
Qed.

Lemma elem_of_not_asked (state : State) (k : string) :
  k ∈ not_asked state ↔
  ∃ entry, state !! k = Some entry ∧ status_is entry "NotAsked" = true.
Proof.
  unfold not_asked. rewrite list_elem_of_fmap. split.
  - intros ([k' entry] & -> & H). apply elem_of_List_filter in H as [H Hst].
    apply elem_of_map_to_list in H. by exists entry.
  - intros (entry & Hk & Hst). exists (k, entry). split; [done|].
    apply elem_of_List_filter. split; [|done]. by apply elem_of_map_to_list.
Qed.

Lemma NoDup_not_asked (state : State) : NoDup (not_asked state).
Proof. apply NoDup_fst_List_filter, NoDup_fst_map_to_list. Qed.

(** ** The effects *)

Lemma mounted_inv : hook_inv mounted.
Proof.
  split; simpl.
  - constructor.
  - intros k H. by apply elem_of_nil in H.
  - intros k entry H. by rewrite lookup_empty in H.
Qed.

Lemma dispatch_calls (action : Action) (h : Hook) :
  loaderCalls (dispatch action h).2 = loaderCalls h.
Proof. unfold dispatch. by destruct (reducer _ _). Qed.

Lemma dispatch_inv (action : Action) (h : Hook) :
  hook_inv h → hook_inv (dispatch action h).2.
Proof.
  intros [Hc Ha Hl]. unfold dispatch.
  destruct (reducer (attachments h) action) as [state|e] eqn:H; simpl; [|done].
  split; simpl; [done| |by eapply reducer_no_loading].
  intros k Hk. eapply reducer_asked; [by apply Ha|done].
Qed.

Lemma forEach_preserves {A} (P : Hook → Prop) (f : A → Eff unit) (l : list A) :
  (∀ x h, P h → P (f x h).2) →
  ∀ h, P h → P (forEach f l h).2.
Proof.
  intros Hf. induction l as [|x l IH]; intros h Hh; simpl; [done|].
  unfold eff_bind. specialize (Hf x h Hh).
  destruct (f x h) as [[[]|e] h']; simpl in *; [by apply IH|done].
Qed.

Lemma request_inv (o : SceneObject) (h : Hook) :
  hook_inv h → hook_inv (request o h).2.
Proof.
  intros Hh. unfold request.
  destruct (getFilepathForLoadable _ _); [by apply dispatch_inv|done].
Qed.

Lemma requestEffect_inv (sceneObjects : SceneObjects) (world : World) (h : Hook) :
  hook_inv h → hook_inv (requestEffect sceneObjects world h).2.
Proof. apply forEach_preserves. intros o h'. apply request_inv. Qed.

(** One round of the begin-load loop, on a key that has an entry. *)
Lemma beginLoad_present (k : string) (h : Hook) (entry : Entry) :
  attachments h !! k = Some entry →
  ∃ state, beginLoad k h
           = (Normal (), {| attachments := state; loaderCalls := loaderCalls h ++ [k] |})
    ∧ (state = attachments h ∨ state = <[k := loading_entry]> (attachments h))
    ∧ (entry !! "loading" = None → state = <[k := loading_entry]> (attachments h)).
Proof.
  intros Hk. unfold beginLoad, eff_bind, gltfLoader_load, dispatch, reducer. simpl.
  rewrite Hk. unfold get.
  destruct (truthy (default VUndefined (entry !! "loading"))) eqn:Ht; simpl.
  - eexists. split; [done|]. split; [by left|]. intros Hn. by rewrite Hn in Ht.
  - eexists. split; [done|]. split; [by right|]. done.
Qed.

(** The loop over keys that all have an entry never throws and calls the
    loader once with each of them, in order. *)
Lemma forEach_beginLoad_calls (ks : list string) (h : Hook) :
  (∀ k, k ∈ ks → is_Some (attachments h !! k)) →
  ∃ state, forEach beginLoad ks h
           = (Normal (), {| attachments := state; loaderCalls := loaderCalls h ++ ks |})
    ∧ (∀ k, is_Some (attachments h !! k) → is_Some (state !! k))
    ∧ (∀ k, k ∉ ks → state !! k = attachments h !! k).
Proof.
  revert h. induction ks as [|k ks IH]; intros h Hks; simpl.
  - exists (attachments h). rewrite app_nil_r. by destruct h.
  - destruct (Hks k) as [entry Hk]; [by apply elem_of_cons; left|].
    destruct (beginLoad_present k h entry Hk) as (state & Hb & Hst & _).
    unfold eff_bind. rewrite Hb.
    assert (∀ k', is_Some (attachments h !! k') → is_Some (state !! k')) as Hmono.
    { intros k' Hk'. destruct Hst as [Hst|Hst]; rewrite Hst; [done|].
      destruct (decide (k' = k)) as [->|Hne];
        [by rewrite lookup_insert_eq|by rewrite lookup_insert_ne]. }
    destruct (IH {| attachments := state; loaderCalls := loaderCalls h ++ [k] |})
      as (state' & Hf & Hmono' & Hframe).
    { intros k' Hk'. apply Hmono, Hks, elem_of_cons. by right. }
    exists state'. simpl in *. rewrite Hf, <- app_assoc. split; [done|].
    split; [by auto|].
    intros k' Hk'. apply not_elem_of_cons in Hk' as [Hne Hk']. rewrite Hframe by done.
    destruct Hst as [Hst|Hst]; rewrite Hst; [done|].
    by rewrite lookup_insert_ne.
Qed.

Lemma forEach_beginLoad_inv (ks : list string) (h : Hook) :
  hook_inv h →
  NoDup ks →
  (∀ k, k ∈ ks → (k ∉ loaderCalls h) ∧ is_Some (attachments h !! k)) →
  hook_inv (forEach beginLoad ks h).2.
Proof.
  revert h. induction ks as [|k ks IH]; intros h Hh Hnd Hks; simpl; [done|].
  apply NoDup_cons in Hnd as [Hk Hnd].
  destruct (Hks k) as [Hfresh [entry Hentry]]; [by apply elem_of_cons; left|].
  destruct (beginLoad_present k h entry Hentry) as (state & Hb & _ & Hst).
  specialize (Hst (inv_no_loading h Hh k entry Hentry)). subst state.
  unfold eff_bind. rewrite Hb. apply IH; [|done|]; simpl.
  - split; simpl.
    + apply NoDup_app. split; [by apply Hh|]. split; [|apply NoDup_singleton].
      intros k' Hk' ->%list_elem_of_singleton. done.
    + intros k' Hk'. destruct (decide (k' = k)) as [->|Hne].
      * exists loading_entry. by rewrite lookup_insert_eq.
      * apply elem_of_app in Hk' as [Hk'|Hk'%list_elem_of_singleton]; [|done].
        destruct (inv_asked h Hh k' Hk') as (e & He & Hs).
        exists e. by rewrite lookup_insert_ne.
    + intros k' e. destruct (decide (k' = k)) as [->|Hne].
      * rewrite lookup_insert_eq. by intros [= <-].
      * rewrite lookup_insert_ne by done. apply Hh.
  - intros k' Hk'. destruct (Hks k') as [Hfresh' Hsome]; [by apply elem_of_cons; right|].
    assert (k' ≠ k) by (intros ->; done).
    split; [|by rewrite lookup_insert_ne].
    rewrite elem_of_app, list_elem_of_singleton. tauto.
Qed.

Lemma reducer_PENDING_present (state : State) (action : Action) (entry : Entry) :
  action_type action = "PENDING" →
  state !! key_of action = Some entry →
  reducer state action = Normal state.
Proof. unfold reducer, key_of. intros -> ->. done. Qed.

Lemma reducer_PENDING_keeps (state state' : State) (i : option string)
    (k : string) (entry : Entry) :
  state !! k = Some entry →
  reducer state (PENDING i) = Normal state' →
  state' !! k = Some entry.
Proof.
  intros Hk H. destruct (decide (k = key_of (PENDING i))) as [->|Hne].
  - rewrite (reducer_PENDING_present state (PENDING i) entry) in H by done.
    by injection H as <-.
  - by rewrite (reducer_frame _ _ _ _ H Hne).
Qed.

Lemma request_keeps (o : SceneObject) (h : Hook) (k : string) (entry : Entry) :
  attachments h !! k = Some entry →
  attachments (request o h).2 !! k = Some entry.
Proof.
  intros Hk. unfold request. destruct (getFilepathForLoadable _ _) as [i|]; [|done].
  unfold dispatch. destruct (reducer _ _) as [state|] eqn:H; [|done].
  simpl. by eapply reducer_PENDING_keeps.
Qed.

(** The first memo keeps the invariant, the trace of the loader and every
    entry that the state has. *)
Lemma requestMemo_inv sceneObjects world changed (h : Hook) :
  hook_inv h → hook_inv (useMemo changed (requestEffect sceneObjects world) h).2.
Proof. destruct changed; [apply requestEffect_inv|done]. Qed.

Lemma requestMemo_calls sceneObjects world changed (h : Hook) :
  loaderCalls (useMemo changed (requestEffect sceneObjects world) h).2 = loaderCalls h.
Proof.
  destruct changed; [|done].
  apply (forEach_preserves (fun h' => loaderCalls h' = loaderCalls h)); [|done].
  intros o h' <-. unfold request.
  destruct (getFilepathForLoadable _ _); [apply dispatch_calls|done].
Qed.

Lemma requestMemo_keeps sceneObjects world changed (h : Hook) k (entry : Entry) :
  attachments h !! k = Some entry →
  attachments (useMemo changed (requestEffect sceneObjects world) h).2 !! k = Some entry.
Proof.
  destruct changed; [|done].
  apply (forEach_preserves (fun h' => attachments h' !! k = Some entry)).
  intros o h'. apply request_keeps.
Qed.

(** A render ends after the first memo, or after the loop of the second
    memo over the keys that are NotAsked in the state of the render. *)
Lemma useAttachmentLoader_result sceneObjects world sceneChanged attChanged h :
  let h1 := (useMemo sceneChanged (requestEffect sceneObjects world) h).2 in
  (useAttachmentLoader sceneObjects world sceneChanged attChanged h).2 = h1
  ∨ (useAttachmentLoader sceneObjects world sceneChanged attChanged h).2
    = (forEach beginLoad (not_asked (attachments h)) h1).2.
Proof.
  unfold useAttachmentLoader, eff_bind.
  destruct (useMemo sceneChanged (requestEffect sceneObjects world) h) as [[[]|e] h1]; simpl; [|by left].
  destruct attChanged; [|by left]. right. unfold useMemo, beginLoadEffect.
  by destruct (forEach beginLoad (not_asked (attachments h)) h1) as [[[]|e] h2].
Qed.

Lemma useAttachmentLoader_inv sceneObjects world sceneChanged attChanged h :
  hook_inv h →
  hook_inv (useAttachmentLoader sceneObjects world sceneChanged attChanged h).2.
Proof.
  intros Hh.
  pose proof (requestMemo_inv sceneObjects world sceneChanged h Hh) as Hh1.
  destruct (useAttachmentLoader_result sceneObjects world sceneChanged attChanged h)
    as [-> | ->]; [done|].
  apply forEach_beginLoad_inv; [done|apply NoDup_not_asked|].
  intros k (entry & Hk & Hst)%elem_of_not_asked. split.
  - rewrite requestMemo_calls. intros Hin.
    destruct (inv_asked h Hh k Hin) as (e & He & Hs). congruence.
  - exists entry. by apply requestMemo_keeps.
Qed.

(** The loader is called in a render only with keys that are NotAsked in
    the state of the render, and the entries of the other keys that the
    state has are the same after the render. *)
Lemma useAttachmentLoader_frame sceneObjects world sceneChanged attChanged h
    k (entry : Entry) :
  attachments h !! k = Some entry →
  k ∉ not_asked (attachments h) →
  let h' := (useAttachmentLoader sceneObjects world sceneChanged attChanged h).2 in
  attachments h' !! k = Some entry
  ∧ count_occ String.string_dec (loaderCalls h') k
    = count_occ String.string_dec (loaderCalls h) k.
Proof.
  intros Hk Hnot.
  pose proof (requestMemo_keeps sceneObjects world sceneChanged h k entry Hk) as Hk1.
  pose proof (requestMemo_calls sceneObjects world sceneChanged h) as Hc1.
  destruct (useAttachmentLoader_result sceneObjects world sceneChanged attChanged h)
    as [E|E]; simpl; rewrite E; [by rewrite Hc1|].
  destruct (forEach_beginLoad_calls (not_asked (attachments h))
              (useMemo sceneChanged (requestEffect sceneObjects world) h).2)
    as (state & -> & _ & Hframe).
  { intros k' (e' & Hk' & _)%elem_of_not_asked. exists e'.
    by apply requestMemo_keeps. }
  simpl. rewrite Hframe by done. split; [done|].
  rewrite Hc1, count_occ_app.
  assert (count_occ String.string_dec (not_asked (attachments h)) k = 0) as ->; [|lia].
  apply count_occ_not_In. by rewrite <- list_elem_of_In.
Qed.

Lemma step_inv (ev : LoopEvent) (h : Hook) :
  hook_inv h → hook_inv (step ev h).2.
Proof.
  destruct ev as [sceneObjects world sc ac|action]; simpl; [|apply dispatch_inv].
  intros Hh. unfold eff_bind.
  pose proof (useAttachmentLoader_inv sceneObjects world sc ac h Hh) as H.
  by destruct (useAttachmentLoader sceneObjects world sc ac h) as [[state|e] h'].
Qed.

Lemma run_inv (evs : list LoopEvent) (h : Hook) :
  hook_inv h → hook_inv (run evs h).
Proof.
  revert h. induction evs as [|ev evs IH]; intros h Hh; simpl; [done|].
  pose proof (step_inv ev h Hh) as Hs.
  destruct (step ev h) as [[[]|e] h']; simpl in Hs; [by apply IH|done].
Qed.

(** ** The deduplication of loads *)

Lemma status_is_exclusive (entry : Entry) (s t : string) :
  status_is entry s = true → s ≠ t → status_is entry t = false.
Proof.
  unfold status_is. destruct (get entry "status"); try done.
  intros ->%String.eqb_eq Hne. by apply String.eqb_neq.
Qed.

Lemma not_asked_other_status (state : State) k (entry : Entry) (s : string) :
  state !! k = Some entry →
  status_is entry s = true →
  s ≠ "NotAsked" →
  k ∉ not_asked state.
Proof.
  intros Hk Hst Hne (e & He & Hs)%elem_of_not_asked.
  rewrite Hk in He. injection He as <-.
  by rewrite (status_is_exclusive entry s "NotAsked") in Hs.
Qed.

(** C1. Whatever happens to the mounted hook (renders with or without a
    change of the scene or of the cache, dispatched actions of any kind, in
    any order and number), [gltfLoader.load] is called at most once with
    each key.  In particular, on an entry that is Loading neither a render
    of the hook nor a LOAD action calls the loader for its key. *)
Theorem loader_called_at_most_once :
  (∀ (evs : list LoopEvent) (k : string),
     (count_occ String.string_dec (loaderCalls (run evs mounted)) k ≤ 1)%nat)
  ∧ (∀ (h : Hook) (k : string) (entry : Entry) sceneObjects world sc ac,
       attachments h !! k = Some entry →
       status_is entry "Loading" = true →
       count_occ String.string_dec
         (loaderCalls (useAttachmentLoader sceneObjects world sc ac h).2) k
       = count_occ String.string_dec (loaderCalls h) k
       ∧ loaderCalls (dispatch (LOAD k) h).2 = loaderCalls h).
Proof.
  split.
  - intros evs. apply NoDup_count_occ, NoDup_ListNoDup, inv_calls, run_inv, mounted_inv.
  - intros h k entry sceneObjects world sc ac Hk Hst. split; [|apply dispatch_calls].
    apply (useAttachmentLoader_frame _ _ _ _ _ k entry Hk).
    by apply (not_asked_other_status _ _ entry "Loading").
Qed.

Lemma loader_called_at_most_once_witness :
  (count_occ String.string_dec
     (loaderCalls (run [Rendered scenario_objects no_environment true true;
                        Rendered scenario_objects no_environment false true;
                        Rendered scenario_objects no_environment true true]
                       mounted)) orc_url ≤ 1)%nat
  ∧ count_occ String.string_dec
      (loaderCalls (useAttachmentLoader scenario_objects no_environment true true
                      orc_loading).2) orc_url
    = count_occ String.string_dec (loaderCalls orc_loading) orc_url
  ∧ loaderCalls (dispatch (LOAD orc_url) orc_loading).2 = loaderCalls orc_loading.
Proof.
  split.
  - apply (proj1 loader_called_at_most_once).
  - apply (proj2 loader_called_at_most_once orc_loading orc_url loading_entry);
      reflexivity.
Defined.

Example orc_loaded_once :
  loaderCalls (run [Rendered scenario_objects no_environment true true;
                    Rendered scenario_objects no_environment false true;
                    Rendered scenario_objects no_environment true true]
                   mounted) = [orc_url].
Proof. vm_compute. reflexivity. Qed.

(** ** Entries that are Success or Error *)

(** An ERROR action on an entry that is Success makes it Error. *)
Lemma success_entry_overwritten_by_error :
  reducer {[ chair_url := success_entry (VObject 1) ]} (ERROR chair_url (VObject 2))
  = Normal {[ chair_url := error_entry (VObject 2) ]}
  ∧ status_is (success_entry (VObject 1)) "Success" = true
  ∧ get (error_entry (VObject 2)) "status" = VStr "Error"
  ∧ get (error_entry (VObject 2)) "status" ≠ get (success_entry (VObject 1)) "status".
Proof. vm_compute. repeat split; done. Qed.

(** C2, as the code has it.  An entry that is Success or Error is left as
    it is by a PENDING action for its key, by every action for another key
    and by every render of the hook (the second memo never picks it); a
    SUCCESS or ERROR action for its key replaces it by the entry of that
    action. *)
Theorem terminal_entry_kept_by_loop (state : State) (k : string) (entry : Entry) :
  state !! k = Some entry →
  status_is entry "Success" = true ∨ status_is entry "Error" = true →
  (∀ action, action_type action = "PENDING" → key_of action = k →
             reducer state action = Normal state)
  ∧ (∀ action state', key_of action ≠ k → reducer state action = Normal state' →
                      state' !! k = Some entry)
  ∧ (∀ h sceneObjects world sc ac, attachments h = state →
       (k ∉ not_asked state)
       ∧ attachments (useAttachmentLoader sceneObjects world sc ac h).2 !! k
         = Some entry)
  ∧ (∀ v, reducer state (SUCCESS k v) = Normal (<[k := success_entry v]> state))
  ∧ (∀ e, reducer state (ERROR k e) = Normal (<[k := error_entry e]> state)).
Proof.
  intros Hk Hst.
  assert (k ∉ not_asked state) as Hnot.
  { destruct Hst as [H|H]; by eapply not_asked_other_status. }
  repeat split; try done.
  - intros action Ht <-. by eapply reducer_PENDING_present.
  - intros action state' Hne H. rewrite <- Hk. eapply reducer_frame; eauto.
  - subst state. by apply useAttachmentLoader_frame.
Qed.

Lemma terminal_entry_kept_by_loop_witness :
  attachments
    (useAttachmentLoader scenario_objects no_environment true true
       {| attachments := chair_loaded; loaderCalls := [chair_url] |}).2
    !! chair_url = Some (success_entry (VObject 1))
  ∧ reducer chair_loaded (PENDING (Some chair_url)) = Normal chair_loaded.
Proof.
  destruct (terminal_entry_kept_by_loop chair_loaded chair_url (success_entry (VObject 1)))
    as (Hp & _ & Hb & _); [reflexivity|left; reflexivity|].
  split.
  - apply (Hb {| attachments := chair_loaded; loaderCalls := [chair_url] |}).
    reflexivity.
  - apply Hp; reflexivity.
Defined.

(** ** PROGRESS *)

(** C3, as the code has it.  The entry written by a PROGRESS action is
    built from the array [[id]] and the progress object: it has the
    properties "0" and "progress" only, so that the status of an entry that
    was Loading is undefined afterwards. *)
Theorem progress_drops_status (state : State) (k : string) (p : ProgressEvent)
    (entry : Entry) :
  state !! k = Some entry →
  status_is entry "Loading" = true →
  reducer state (PROGRESS k p) = Normal (<[k := progress_entry (Some k) p]> state)
  ∧ get (progress_entry (Some k) p) "status" = VUndefined
  ∧ get (progress_entry (Some k) p) "0" = VStr k
  ∧ get (progress_entry (Some k) p) "status" ≠ get entry "status"
  ∧ status_is (progress_entry (Some k) p) "Loading" = false.
Proof.
  intros _ Hst. repeat split.
  unfold status_is in Hst. intros E. rewrite <- E in Hst. done.
Qed.

Lemma progress_drops_status_witness :
  reducer {[ chair_url := loading_entry ]}
    (PROGRESS chair_url {| ev_loaded := 1; ev_total := 2 |})
  = Normal (<[chair_url := progress_entry (Some chair_url) {| ev_loaded := 1; ev_total := 2 |}]>
              {[ chair_url := loading_entry ]})
  ∧ get (progress_entry (Some chair_url) {| ev_loaded := 1; ev_total := 2 |}) "status"
    = VUndefined.
Proof.
  destruct (progress_drops_status {[ chair_url := loading_entry ]} chair_url
              {| ev_loaded := 1; ev_total := 2 |} loading_entry)
    as (H1 & H2 & _); [reflexivity|reflexivity|].
  split; [exact H1|exact H2].
Defined.

(** C4. For byte counts 0 <= loaded <= total with total > 0, the percent
    stored by a PROGRESS action is floor(loaded / total) * 100: it is 0
    when loaded < total and 100 when loaded = total, and it is 100 only
    when loaded = total. *)
Theorem progress_percent (state : State) (k : string) (loaded total : Z) :
  (0 ≤ loaded ≤ total)%Z →
  (0 < total)%Z →
  ∃ state' entry percent,
    reducer state (PROGRESS k {| ev_loaded := loaded; ev_total := total |})
    = Normal state'
    ∧ state' !! k = Some entry
    ∧ get entry "progress" = VProgress loaded total (Num percent)
    ∧ percent = (loaded / total * 100)%Z
    ∧ ((loaded < total)%Z → percent = 0%Z)
    ∧ (loaded = total → percent = 100%Z)
    ∧ (percent = 100%Z ↔ loaded = total).
Proof.
  intros Hl Ht.
  exists (<[k := progress_entry (Some k) {| ev_loaded := loaded; ev_total := total |}]> state),
    (progress_entry (Some k) {| ev_loaded := loaded; ev_total := total |}),
    (loaded / total * 100)%Z.
  split; [done|]. split; [by rewrite lookup_insert_eq|]. split.
  { unfold progress_entry, get, percent_of; simpl.
    rewrite lookup_insert_eq. simpl.
    destruct (Z.eqb_spec total 0) as [E|_]; [lia|done]. }
  split; [done|].
  assert ((loaded < total)%Z → (loaded / total)%Z = 0%Z) as Hlt.
  { intros H. apply Z.div_small. lia. }
  assert (loaded = total → (loaded / total)%Z = 1%Z) as Heq.
  { intros ->. apply Z.div_same. lia. }
  split; [intros H; rewrite Hlt by done; lia|].
  split; [intros H; rewrite Heq by done; lia|].
  split; [|intros H; rewrite Heq by done; lia].
  intros H. destruct (decide (loaded = total)) as [|Hne]; [done|].
  rewrite Hlt in H by lia. lia.
Qed.

Lemma progress_percent_witness :
  ∃ state' entry,
    reducer {[ chair_url := loading_entry ]}
      (PROGRESS chair_url {| ev_loaded := 512; ev_total := 2048 |})
    = Normal state'
    ∧ state' !! chair_url = Some entry
    ∧ get entry "progress" = VProgress 512 2048 (Num 0).
Proof.
  destruct (progress_percent {[ chair_url := loading_entry ]} chair_url 512 2048)
    as (state' & entry & percent & Hr & Hk & Hp & _ & Hlt & _); [lia|lia|].
  exists state', entry. split; [exact Hr|]. split; [exact Hk|].
  rewrite Hp, Hlt by lia. reflexivity.
Defined.

(** ** The resolver *)

(** C5. The directory table.  A reference with a separator resolves, for a
    character, an object and an environment, to the user directory of the
    kind followed by the final path segment (the text after the last
    slash), and to null for every other kind; a bare reference resolves
    for a character and an object to the system directory of the kind
    followed by the name and ".glb", and to null for every other kind. *)
Theorem resolver_directory_table (model_ref : string) :
  (contains_separator model_ref →
   ∃ dir filename,
     model_ref = dir +:+ "/" +:+ filename
     ∧ ¬ contains_separator filename
     ∧ getFilepathForLoadable "character" (Some model_ref)
       = Normal (Some ("/data/user/characters/" +:+ filename))
     ∧ getFilepathForLoadable "object" (Some model_ref)
       = Normal (Some ("/data/user/objects/" +:+ filename))
     ∧ getFilepathForLoadable "environment" (Some model_ref)
       = Normal (Some ("/data/user/environments/" +:+ filename))
     ∧ ∀ kind, kind ∉ ["character"; "object"; "environment"] →
               getFilepathForLoadable kind (Some model_ref) = Normal None)
  ∧ (¬ contains_separator model_ref →
     getFilepathForLoadable "character" (Some model_ref)
     = Normal (Some ("/data/system/dummies/gltf/" +:+ model_ref +:+ ".glb"))
     ∧ getFilepathForLoadable "object" (Some model_ref)
       = Normal (Some ("/data/system/objects/" +:+ model_ref +:+ ".glb"))
     ∧ getFilepathForLoadable "environment" (Some model_ref) = Normal None
     ∧ getFilepathForLoadable "light" (Some model_ref) = Normal None
     ∧ ∀ kind, kind ∉ ["character"; "object"] →
               getFilepathForLoadable kind (Some model_ref) = Normal None).
Proof.
  split.
  - intros Hs%has_slash_spec.
    destruct (last_part_user model_ref Hs) as (dir & Hm & Hf).
    exists dir, (last_part (split_slash model_ref)).
    split; [done|]. split.
    { rewrite <- has_slash_spec. by rewrite Hf. }
    unfold getFilepathForLoadable. rewrite Hs. simpl.
    repeat split.
    intros kind Hk.
    assert (∀ s, s ∈ ["character"; "object"; "environment"] →
                 String.eqb kind s = false) as Hneq.
    { intros s Hin. apply String.eqb_neq. by intros ->. }
    by rewrite !Hneq by set_solver.
  - intros Hs. assert (has_slash model_ref = false) as Hb.
    { destruct (has_slash model_ref) eqn:E; [|done].
      by apply has_slash_spec in E. }
    unfold getFilepathForLoadable. rewrite Hb. simpl.
    repeat split.
    intros kind Hk.
    assert (∀ s, s ∈ ["character"; "object"] → String.eqb kind s = false) as Hneq.
    { intros s Hin. apply String.eqb_neq. by intros ->. }
    by rewrite !Hneq by set_solver.
Qed.

Lemma oak_has_separator : contains_separator "assets/chairs/oak.glb".
Proof. by exists "assets", "chairs/oak.glb". Qed.

Lemma orc_is_bare : ¬ contains_separator "ORC".
Proof. rewrite <- has_slash_spec. simpl. done. Qed.

Lemma resolver_directory_table_witness :
  (∃ dir filename,
     "assets/chairs/oak.glb" = dir +:+ "/" +:+ filename
     ∧ getFilepathForLoadable "object" (Some "assets/chairs/oak.glb")
       = Normal (Some ("/data/user/objects/" +:+ filename))
     ∧ getFilepathForLoadable "light" (Some "assets/chairs/oak.glb") = Normal None)
  ∧ getFilepathForLoadable "character" (Some "ORC")
    = Normal (Some ("/data/system/dummies/gltf/" +:+ "ORC" +:+ ".glb"))
  ∧ getFilepathForLoadable "camera" (Some "ORC") = Normal None.
Proof.
  destruct (resolver_directory_table "assets/chairs/oak.glb") as [Huser _].
  destruct (resolver_directory_table "ORC") as [_ Hsystem].
  destruct (Huser oak_has_separator) as (dir & filename & Hm & _ & _ & Ho & _ & Hk).
  destruct (Hsystem orc_is_bare) as (Hc & _ & _ & _ & Hk').
  split; [|split].
  - exists dir, filename. split; [exact Hm|]. split; [exact Ho|].
    apply Hk. apply (bool_decide_unpack _). vm_compute. exact I.
  - exact Hc.
  - apply Hk'. apply (bool_decide_unpack _). vm_compute. exact I.
Defined.

Lemma getFilepathForLoadable_returns (kind model_ref : string) :
  ∃ key, getFilepathForLoadable kind (Some model_ref) = Normal key.
Proof. unfold getFilepathForLoadable. repeat case_match; eauto. Qed.

(** ** The loadables *)

Lemma model_is_spec (m : option string) (s : string) :
  model_is m s = true ↔ m = Some s.
Proof.
  destruct m as [t|]; simpl; [|done]. rewrite String.eqb_eq. naive_solver.
Qed.

Lemma List_filter_Prop {A} (f : A → bool) (P : A → Prop)
    `{!∀ x, Decision (P x)} (l : list A) :
  (∀ x, f x = true ↔ P x) →
  List.filter f l = filter P l.
Proof.
  intros Hf. induction l as [|x l IH]; [done|].
  rewrite filter_cons. simpl. destruct (f x) eqn:E.
  - rewrite decide_True by (by apply Hf). by rewrite IH.
  - rewrite decide_False; [done|]. rewrite <- Hf. congruence.
Qed.

Lemma filters_wanted (l : list SceneObject) :
  List.filter (fun o => negb (String.eqb (type o) "object" && model_is (model o) "box"))
    (List.filter (fun o => negb (match loaded o with Some true => true | _ => false end))
       (List.filter (fun o => match model o with Some _ => true | None => false end) l))
  = filter wanted l.
Proof.
  rewrite (List_filter_Prop _ (fun o => ¬ (type o = "object" ∧ model o = Some "box"))).
  2: { intros o. rewrite negb_true_iff, andb_false_iff.
       rewrite String.eqb_neq, <- not_true_iff_false, model_is_spec.
       split; [tauto|]. intros H.
       destruct (decide (type o = "object")); [right|left]; tauto. }
  rewrite (List_filter_Prop _ (fun o => loaded o ≠ Some true)).
  2: { intros o. destruct (loaded o) as [[|]|]; simpl; split; congruence. }
  rewrite (List_filter_Prop _ (fun o => model o ≠ None)).
  2: { intros o. destruct (model o); split; congruence. }
  rewrite !list_filter_filter. apply list_filter_iff. unfold wanted. tauto.
Qed.

Lemma loadables_split (sceneObjects : SceneObjects) (world : World) :
  loadables sceneObjects world
  = filter wanted (Object_values sceneObjects) ++ environment_loadables world.
Proof.
  unfold loadables, environment_loadables. rewrite filters_wanted.
  destruct (file (environment world)) as [f|]; [|by rewrite app_nil_r].
  simpl. destruct (decide (f = "")) as [->|Hf]; simpl; [by rewrite app_nil_r|].
  by apply String.eqb_neq in Hf as ->.
Qed.

Lemma loadables_have_model (sceneObjects : SceneObjects) (world : World)
    (o : SceneObject) :
  o ∈ loadables sceneObjects world → ∃ m, model o = Some m.
Proof.
  rewrite loadables_split, elem_of_app. intros [H|H].
  - apply list_elem_of_filter in H as [(Hm & _) _].
    destruct (model o) as [m|]; [by exists m|done].
  - unfold environment_loadables in H.
    destruct (file (environment world)) as [f|]; [|by apply elem_of_nil in H].
    destruct (decide (f = "")); [by apply elem_of_nil in H|].
    apply list_elem_of_singleton in H as ->. by exists f.
Qed.

(** C6 fails on the code: with a null reference the resolver throws. *)
Lemma resolve_null_reference_throws :
  getFilepathForLoadable "character" None = Throw TypeError
  ∧ getFilepathForLoadable "character" None ≠ Normal None.
Proof. split; [reflexivity|discriminate]. Qed.

(** C6, as the code has it.  For a null reference the resolver throws a
    TypeError, whatever the kind; the hook never calls it that way: every
    loadable has a reference and resolves without failing. *)
Theorem resolve_null_reference_excluded :
  (∀ kind, getFilepathForLoadable kind None = Throw TypeError)
  ∧ (∀ sceneObjects world o,
       o ∈ loadables sceneObjects world →
       ∃ m key, model o = Some m
                ∧ getFilepathForLoadable (type o) (model o) = Normal key).
Proof.
  split; [done|]. intros sceneObjects world o [m Hm]%loadables_have_model.
  destruct (getFilepathForLoadable_returns (type o) m) as [key Hkey].
  exists m, key. by rewrite Hm.
Qed.

Lemma resolve_null_reference_excluded_witness :
  getFilepathForLoadable (type lamp) (model lamp) = Throw TypeError
  ∧ ∃ m key, model orc = Some m
             ∧ getFilepathForLoadable (type orc) (model orc) = Normal key.
Proof.
  split.
  - apply (proj1 resolve_null_reference_excluded).
  - apply (proj2 resolve_null_reference_excluded scenario_objects no_environment orc).
    vm_compute. left.
Defined.

(** The request loop returns, and the keys that have an entry after it are
    those that had one before and the keys of the descriptors. *)
Lemma forEach_request_entries (l : list SceneObject) (h : Hook) :
  (∀ o, o ∈ l → ∃ m, model o = Some m) →
  (forEach request l h).1 = Normal ()
  ∧ ∀ k, is_Some (attachments (forEach request l h).2 !! k) ↔
         is_Some (attachments h !! k)
         ∨ ∃ o i, o ∈ l ∧ getFilepathForLoadable (type o) (model o) = Normal i
                  ∧ k = to_key i.
Proof.
  revert h. induction l as [|o l IH]; intros h Hl; simpl.
  - split; [done|]. intros k. split; [by left|].
    intros [H|(o & i & Ho & _)]; [done|by apply elem_of_nil in Ho].
  - destruct (Hl o) as [m Hm]; [by apply elem_of_cons; left|].
    destruct (getFilepathForLoadable_returns (type o) m) as [i Hi].
    rewrite <- Hm in Hi.
    assert (∃ h1, request o h = (Normal (), h1)
                  ∧ ∀ k, is_Some (attachments h1 !! k) ↔
                         is_Some (attachments h !! k) ∨ k = to_key i)
      as (h1 & Hr & Hdom).
    { unfold request, dispatch, reducer. rewrite Hi. simpl.
      destruct (attachments h !! to_key i) as [e|] eqn:He.
      - eexists. split; [done|]. simpl. intros k. split; [by left|].
        intros [H| ->]; [done|by exists e].
      - eexists. split; [done|]. simpl. intros k.
        destruct (decide (k = to_key i)) as [->|Hne].
        + rewrite lookup_insert_eq. split; [by right|by eexists].
        + rewrite lookup_insert_ne by done. tauto. }
    unfold eff_bind. rewrite Hr.
    destruct (IH h1) as [Hret Hk].
    { intros o' Ho'. apply Hl, elem_of_cons. by right. }
    split; [done|]. intros k. rewrite Hk, Hdom. split.
    + intros [[H| ->]|(o' & i' & Ho' & Hi' & ->)].
      * by left.
      * right. exists o, i. split; [by apply elem_of_cons; left|done].
      * right. exists o', i'. split; [by apply elem_of_cons; right|done].
    + intros [H|(o' & i' & [->|Ho']%elem_of_cons & Hi' & ->)].
      * by left; left.
      * left; right. congruence.
      * right. by exists o', i'.
Qed.

(** C8 fails on the code: an environment file that is the empty string is
    not null, and no descriptor is pushed for it. *)
Lemma empty_environment_file_not_requested :
  file (environment {| environment := {| file := Some "" |} |}) ≠ None
  ∧ loadables [] {| environment := {| file := Some "" |} |} = []
  ∧ requestEffect [] {| environment := {| file := Some "" |} |} mounted
    = (Normal (), mounted).
Proof. split; [discriminate|]. split; reflexivity. Qed.

(** C8, as the code has it.  The descriptors for which the hook dispatches
    a request are, in order: the scene objects that have a model, whose
    loaded flag is not true and that are not an object with the model
    "box"; then one environment descriptor when the environment file is
    neither null nor the empty string.  The request memo returns, and the
    keys it adds to the cache are the keys of these descriptors and no
    other. *)
Theorem requested_loadables (sceneObjects : SceneObjects) (world : World) :
  loadables sceneObjects world
  = filter wanted (Object_values sceneObjects) ++ environment_loadables world
  ∧ (∀ h, (requestEffect sceneObjects world h).1 = Normal ()
          ∧ ∀ k, is_Some (attachments (requestEffect sceneObjects world h).2 !! k) ↔
                 is_Some (attachments h !! k)
                 ∨ ∃ o i, o ∈ loadables sceneObjects world
                          ∧ getFilepathForLoadable (type o) (model o) = Normal i
                          ∧ k = to_key i)
  ∧ (∀ o, o ∈ filter wanted (Object_values sceneObjects) ↔
          o ∈ Object_values sceneObjects
          ∧ model o ≠ None
          ∧ loaded o ≠ Some true
          ∧ ¬ (type o = "object" ∧ model o = Some "box"))
  ∧ (∀ f, file (environment world) = Some f → f ≠ "" →
          environment_loadables world = [environment_loadable f])
  ∧ (file (environment world) = None ∨ file (environment world) = Some "" →
     environment_loadables world = []).
Proof.
  split; [apply loadables_split|]. split; [|split].
  - intros h. apply forEach_request_entries. apply loadables_have_model.
  - intros o. rewrite list_elem_of_filter. unfold wanted. tauto.
  - unfold environment_loadables. split.
    + intros f -> Hf. by rewrite decide_False.
    + by intros [-> | ->].
Qed.

Lemma requested_loadables_witness :
  loadables scenario_objects forest_world
  = filter wanted (Object_values scenario_objects) ++ environment_loadables forest_world
  ∧ environment_loadables forest_world = [environment_loadable "scenes/forest.glb"]
  ∧ environment_loadables no_environment = [].
Proof.
  destruct (requested_loadables scenario_objects forest_world) as (H1 & _ & _ & H2 & _).
  destruct (requested_loadables scenario_objects no_environment) as (_ & _ & _ & _ & H3).
  split; [exact H1|]. split.
  - apply H2; [reflexivity|discriminate].
  - apply H3. left. reflexivity.
Defined.

Example scenario_requests_orc_only :
  filter wanted (Object_values scenario_objects) = [orc].
Proof. reflexivity. Qed.

(** ** REQUEST *)

(** C7. A PENDING action for a key without an entry writes a NotAsked
    entry at that key; for a key that has an entry, whatever the entry is,
    it returns the state unchanged.  Dispatched twice, it does what it does
    once. *)
Theorem request_idempotent (state : State) (action : Action) :
  action_type action = "PENDING" →
  (state !! key_of action = None →
   reducer state action = Normal (<[key_of action := not_asked_entry]> state)
   ∧ get not_asked_entry "status" = VStr "NotAsked")
  ∧ (∀ entry, state !! key_of action = Some entry →
              reducer state action = Normal state)
  ∧ (∃ state', reducer state action = Normal state'
               ∧ reducer state' action = Normal state').
Proof.
  intros Ht.
  assert (∀ s entry, s !! key_of action = Some entry → reducer s action = Normal s)
    as Hsome.
  { intros s entry. by apply reducer_PENDING_present. }
  assert (state !! key_of action = None →
          reducer state action = Normal (<[key_of action := not_asked_entry]> state))
    as Hnone.
  { unfold reducer, key_of. rewrite Ht. simpl. by intros ->. }
  split; [by intros H; split; [apply Hnone|]|]. split; [by apply Hsome|].
  destruct (state !! key_of action) as [entry|] eqn:Hk.
  - exists state. split; by eapply Hsome.
  - exists (<[key_of action := not_asked_entry]> state). split; [by apply Hnone|].
    apply (Hsome _ not_asked_entry). by rewrite lookup_insert_eq.
Qed.

Lemma request_idempotent_witness :
  (reducer ∅ (PENDING (Some chair_url))
   = Normal (<[chair_url := not_asked_entry]> ∅)
   ∧ get not_asked_entry "status" = VStr "NotAsked")
  ∧ reducer chair_loaded (PENDING (Some chair_url)) = Normal chair_loaded.
Proof.
  destruct (request_idempotent ∅ (PENDING (Some chair_url))) as (H1 & _ & _);
    [reflexivity|].
  destruct (request_idempotent chair_loaded (PENDING (Some chair_url)))
    as (_ & H2 & _); [reflexivity|].
  split.
  - apply H1. reflexivity.
  - apply (H2 (success_entry (VObject 1))). reflexivity.
Defined.

(** ** Descriptors that resolve to null *)

(** C9, as the code has it.  The environment descriptor of a bare file
    name resolves to null; the hook requests it all the same: the PENDING
    action carries the id null, the reducer writes an entry under the key
    "null", and the next render calls the loader with the url "null". *)
Theorem null_key_requested_and_loaded :
  loadables [] bare_environment = [environment_loadable "forest.glb"]
  ∧ getFilepathForLoadable "environment" (Some "forest.glb") = Normal None
  ∧ run [Rendered [] bare_environment true true] mounted
    = {| attachments := {[ "null" := not_asked_entry ]}; loaderCalls := [] |}
  ∧ run [Rendered [] bare_environment true true;
         Rendered [] bare_environment false true] mounted
    = {| attachments := {[ "null" := loading_entry ]}; loaderCalls := ["null"] |}.
Proof. vm_compute. repeat split. Qed.

(** ** The frame of the reducer *)

(** C10. An action changes at most the entry at the key of its payload:
    the entry of every other key is the same before and after; an action
    of an unrecognised type returns the state unchanged.  The reducer
    returns for every action but a LOAD for a key without an entry and a
    PROGRESS without a progress object, where it throws and no state is
    produced. *)
Theorem reducer_frame_property (state : State) (action : Action) :
  (∀ state' k, reducer state action = Normal state' →
               k ≠ key_of action → state' !! k = state !! k)
  ∧ (action_type action ∉ ["PENDING"; "LOAD"; "PROGRESS"; "SUCCESS"; "ERROR"] →
     reducer state action = Normal state)
  ∧ ((∃ state', reducer state action = Normal state')
     ∨ (action_type action = "LOAD" ∧ state !! key_of action = None)
     ∨ (action_type action = "PROGRESS" ∧ progress (payload action) = None)).
Proof.
  split; [intros state' k; apply reducer_frame|].
  split; [apply reducer_default|].
  unfold reducer, key_of.
  destruct (String.eqb_spec (action_type action) "PENDING"); [case_match; eauto|].
  destruct (String.eqb_spec (action_type action) "LOAD");
    [repeat case_match; eauto|].
  destruct (String.eqb_spec (action_type action) "PROGRESS");
    [case_match; eauto|].
  repeat case_match; eauto.
Qed.

Lemma reducer_frame_property_witness :
  <[orc_url := success_entry (VObject 3)]> two_entries !! chair_url
  = two_entries !! chair_url
  ∧ reducer two_entries {| action_type := "RESET"; payload := no_payload None |}
    = Normal two_entries.
Proof.
  destruct (reducer_frame_property two_entries (SUCCESS orc_url (VObject 3)))
    as (H1 & _ & _).
  destruct (reducer_frame_property two_entries
              {| action_type := "RESET"; payload := no_payload None |})
    as (_ & H2 & _).
  split.
  - apply (H1 (<[orc_url := success_entry (VObject 3)]> two_entries) chair_url);
      [reflexivity|discriminate].
  - apply H2. apply (bool_decide_unpack _). vm_compute. exact I.
Defined.

(** * More of the hook and of its readers *)

(** ** What every step of the hook keeps *)

Section HookInvariant.
Variable P : Hook → Prop.
Hypothesis P_dispatch : ∀ action h, P h → P (dispatch action h).2.
Hypothesis P_load : ∀ k h, P h → P (gltfLoader_load k h).2.

Lemma request_keeps_P (o : SceneObject) (h : Hook) : P h → P (request o h).2.
Proof.
  intros Hh. unfold request.
  destruct (getFilepathForLoadable _ _); [by apply P_dispatch|done].
Qed.

Lemma beginLoad_keeps_P (k : string) (h : Hook) : P h → P (beginLoad k h).2.
Proof.
  intros Hh. unfold beginLoad, eff_bind.
  pose proof (P_load k h Hh) as Hl.
  destruct (gltfLoader_load k h) as [[[]|e] h1]; [by apply P_dispatch|done].
Qed.

Lemma useAttachmentLoader_keeps_P sceneObjects world sc ac (h : Hook) :
  P h → P (useAttachmentLoader sceneObjects world sc ac h).2.
Proof.
  intros Hh.
  assert (P (useMemo sc (requestEffect sceneObjects world) h).2) as H1.
  { destruct sc; [|done]. apply (forEach_preserves P); [|done].
    intros o h'. apply request_keeps_P. }
  destruct (useAttachmentLoader_result sceneObjects world sc ac h) as [-> | ->];
    [done|].
  apply (forEach_preserves P); [|done]. intros k h'. apply beginLoad_keeps_P.
Qed.

Lemma step_keeps_P (ev : LoopEvent) (h : Hook) : P h → P (step ev h).2.
Proof.
  destruct ev as [sceneObjects world sc ac|action]; simpl; [|apply P_dispatch].
  intros Hh. unfold eff_bind.
  pose proof (useAttachmentLoader_keeps_P sceneObjects world sc ac h Hh) as H.
  by destruct (useAttachmentLoader sceneObjects world sc ac h) as [[state|e] h'].
Qed.

Lemma run_keeps_P (evs : list LoopEvent) (h : Hook) : P h → P (run evs h).
Proof.
  revert h. induction evs as [|ev evs IH]; intros h Hh; simpl; [done|].
  pose proof (step_keeps_P ev h Hh) as Hs.
  destruct (step ev h) as [[[]|e] h']; simpl in Hs; [by apply IH|done].
Qed.
End HookInvariant.

(** A property of the state that the reducer keeps is kept by every run. *)
Lemma run_keeps_state (Q : State → Prop) (evs : list LoopEvent) (h : Hook) :
  (∀ state action state', Q state → reducer state action = Normal state' → Q state') →
  Q (attachments h) → Q (attachments (run evs h)).
Proof.
  intros HQ. apply (run_keeps_P (fun h => Q (attachments h))); [|done].
  intros action h' Hh'. unfold dispatch.
  destruct (reducer (attachments h') action) as [state|e] eqn:H; [|done].
  simpl. by eapply HQ.
Qed.

Lemma reducer_keeps_key (state state' : State) (action : Action) (k : string) :
  is_Some (state !! k) → reducer state action = Normal state' → is_Some (state' !! k).
Proof.
  intros Hk H. destruct (reducer_result _ _ _ H) as [->|(entry & -> & _)]; [done|].
  destruct (decide (k = key_of action)) as [->|Hne];
    [by rewrite lookup_insert_eq|by rewrite lookup_insert_ne].
Qed.

Lemma reducer_literal_entries (state state' : State) (action : Action) :
  literal_entries state → reducer state action = Normal state' →
  literal_entries state'.
Proof.
  intros Hs H k entry Hk.
  destruct (reducer_result _ _ _ H) as [->|(e & -> & He)]; [by eapply Hs|].
  destruct (decide (k = key_of action)) as [->|Hne].
  - rewrite lookup_insert_eq in Hk. injection Hk as <-. unfold literal_entry.
    destruct He as [[-> _]|[->|[[p ->]|[[v ->]|[v ->]]]]]; eauto 10.
  - rewrite lookup_insert_ne in Hk by done. by eapply Hs.
Qed.

Lemma mounted_literal_entries (evs : list LoopEvent) :
  literal_entries (attachments (run evs mounted)).
Proof.
  apply (run_keeps_state literal_entries);
    [intros state action state'; apply reducer_literal_entries|].
  intros k entry H. cbn in H. by rewrite lookup_empty in H.
Qed.

(** ** The cache only grows *)

(** X1. No event removes an entry or forgets a call of the loader: a key
    that has an entry has one after every run of the hook, and the trace of
    the loader calls before the run is a prefix of the trace after it. *)
Theorem cache_never_evicts (evs : list LoopEvent) (h : Hook) :
  (∀ k, is_Some (attachments h !! k) → is_Some (attachments (run evs h) !! k))
  ∧ loaderCalls h `prefix_of` loaderCalls (run evs h).
Proof.
  split.
  - intros k. apply (run_keeps_state (fun s => is_Some (s !! k))).
    intros state action state'. apply reducer_keeps_key.
  - apply (run_keeps_P (fun h' => loaderCalls h `prefix_of` loaderCalls h')); [| |done].
    + intros action h' Hh'. by rewrite dispatch_calls.
    + intros k h' Hh'. simpl. by apply prefix_app_r.
Qed.

Lemma cache_never_evicts_witness :
  is_Some (attachments
             (run [Dispatched (ERROR chair_url (VObject 9));
                   Rendered scenario_objects no_environment true true]
                  {| attachments := chair_loaded; loaderCalls := [chair_url] |})
           !! chair_url).
Proof.
  apply (proj1 (cache_never_evicts _
                  {| attachments := chair_loaded; loaderCalls := [chair_url] |})).
  vm_compute. eexists. reflexivity.
Defined.

(** ** The guard of LOAD *)

(** X2. The guard of the LOAD branch never holds: in every state that the
    mounted hook reaches no entry has a truthy [loading], so that a LOAD for
    a key that has an entry always replaces the entry by a Loading entry
    without progress, whatever the entry was. *)
Theorem load_guard_never_holds (evs : list LoopEvent) (k : string) (entry : Entry) :
  attachments (run evs mounted) !! k = Some entry →
  truthy (get entry "loading") = false
  ∧ reducer (attachments (run evs mounted)) (LOAD k)
    = Normal (<[k := loading_entry]> (attachments (run evs mounted))).
Proof.
  intros Hk.
  pose proof (inv_no_loading _ (run_inv evs mounted mounted_inv) k entry Hk) as Hl.
  unfold reducer, get. simpl. rewrite Hk. unfold get. by rewrite Hl.
Qed.

Lemma load_guard_never_holds_witness :
  reducer
    (attachments
       (run [Rendered scenario_objects no_environment true true;
             Rendered scenario_objects no_environment false true;
             Dispatched (SUCCESS orc_url (VObject 7))] mounted))
    (LOAD orc_url)
  = Normal {[ orc_url := loading_entry ]}.
Proof.
  destruct (load_guard_never_holds
              [Rendered scenario_objects no_environment true true;
               Rendered scenario_objects no_environment false true;
               Dispatched (SUCCESS orc_url (VObject 7))]
              orc_url (success_entry (VObject 7))) as [_ H].
  - vm_compute. reflexivity.
  - rewrite H. vm_compute. reflexivity.
Defined.

(** ** What a reader of the cache can see *)

Lemma literal_entry_fields (entry : Entry) :
  literal_entry entry →
  (get entry "value" ≠ VUndefined → status_is entry "Success" = true)
  ∧ (get entry "progress" ≠ VUndefined → get entry "status" = VUndefined)
  ∧ (status_is entry "Loading" = true → get entry "progress" = VUndefined).
Proof.
  intros [->|[->|[(i & p & ->)|[(v & ->)|(e & ->)]]]]; repeat split; done.
Qed.

(** X3. In every state that the mounted hook reaches, whatever was
    dispatched to it, [getModelData] gives a value other than undefined
    only for a scene object whose key has a Success entry, and then it is
    the value of that entry. *)
Theorem model_data_only_from_success (evs : list LoopEvent) (o : SceneObject)
    (v : Val) :
  getModelData (attachments (run evs mounted)) o = Normal v →
  v ≠ VUndefined →
  ∃ i entry,
    getFilepathForLoadable (type o) (model o) = Normal i
    ∧ attachments (run evs mounted) !! to_key i = Some entry
    ∧ status_is entry "Success" = true
    ∧ get entry "value" = v.
Proof.
  unfold getModelData. intros H Hv.
  destruct (getFilepathForLoadable (type o) (model o)) as [i|]; [|done].
  destruct (attachments (run evs mounted) !! to_key i) as [entry|] eqn:Hk;
    injection H as <-; [|done].
  exists i, entry. repeat split; try done.
  by apply (literal_entry_fields entry (mounted_literal_entries evs _ _ Hk)).
Qed.

Lemma model_data_only_from_success_witness :
  ∃ i entry,
    getFilepathForLoadable (type orc) (model orc) = Normal i
    ∧ attachments
        (run [Rendered scenario_objects no_environment true true;
              Rendered scenario_objects no_environment false true;
              Dispatched (SUCCESS orc_url (VObject 7))] mounted)
      !! to_key i = Some entry
    ∧ status_is entry "Success" = true
    ∧ get entry "value" = VObject 7.
Proof.
  apply (model_data_only_from_success
           [Rendered scenario_objects no_environment true true;
            Rendered scenario_objects no_environment false true;
            Dispatched (SUCCESS orc_url (VObject 7))] orc (VObject 7));
    [vm_compute; reflexivity|discriminate].
Defined.

(** X4. In every state that the mounted hook reaches, the progress of a
    load is never on an entry that has a status: an entry with a progress
    object has no status, and an entry that is Loading has no progress. *)
Theorem progress_never_with_status (evs : list LoopEvent) (k : string)
    (entry : Entry) :
  attachments (run evs mounted) !! k = Some entry →
  (get entry "progress" ≠ VUndefined → get entry "status" = VUndefined)
  ∧ (status_is entry "Loading" = true → get entry "progress" = VUndefined).
Proof.
  intros Hk.
  by apply (literal_entry_fields entry (mounted_literal_entries evs _ _ Hk)).
Qed.

Lemma progress_never_with_status_witness :
  get (progress_entry (Some orc_url) {| ev_loaded := 10; ev_total := 40 |}) "status"
  = VUndefined.
Proof.
  destruct (progress_never_with_status
              [Rendered scenario_objects no_environment true true;
               Rendered scenario_objects no_environment false true;
               Dispatched (PROGRESS orc_url {| ev_loaded := 10; ev_total := 40 |})]
              orc_url
              (progress_entry (Some orc_url) {| ev_loaded := 10; ev_total := 40 |}))
    as [H _]; [vm_compute; reflexivity|].
  apply H. discriminate.
Defined.

(** X5. The value of a SUCCESS action is what [getModelData] gives next for
    every scene object that resolves to the key of the action, and an ERROR
    action for the key makes it undefined again. *)
Theorem model_data_after_completion (state : State) (o : SceneObject)
    (k : string) (v : Val) :
  getFilepathForLoadable (type o) (model o) = Normal (Some k) →
  (∃ state', reducer state (SUCCESS k v) = Normal state'
             ∧ getModelData state' o = Normal v)
  ∧ (∃ state', reducer state (ERROR k v) = Normal state'
               ∧ getModelData state' o = Normal VUndefined)
  ∧ (∀ e state' state'',
       reducer state (SUCCESS k v) = Normal state' →
       reducer state' (ERROR k e) = Normal state'' →
       getModelData state'' o = Normal VUndefined).
Proof.
  intros Hr. unfold getModelData. rewrite Hr. simpl. repeat split.
  - eexists. split; [reflexivity|]. by rewrite lookup_insert_eq.
  - eexists. split; [reflexivity|]. by rewrite lookup_insert_eq.
  - intros e state' state'' [= <-] [= <-]. by rewrite lookup_insert_eq.
Qed.

Lemma model_data_after_completion_witness :
  ∃ state', reducer {[ orc_url := loading_entry ]} (SUCCESS orc_url (VObject 7))
            = Normal state'
            ∧ getModelData state' orc = Normal (VObject 7).
Proof.
  apply (proj1 (model_data_after_completion {[ orc_url := loading_entry ]} orc
                  orc_url (VObject 7) eq_refl)).
Defined.

(** ** Which references share a key *)

Lemma String_app_cons (c : ascii) (a b : string) :
  String c a +:+ b = String c (a +:+ b).
Proof. reflexivity. Qed.

Lemma String_app_nil (b : string) : "" +:+ b = b.
Proof. reflexivity. Qed.

Lemma String_length_app (a b : string) :
  String.length (a +:+ b) = (String.length a + String.length b)%nat.
Proof. induction a as [|c a IH]; [done|]. rewrite String_app_cons. simpl. by rewrite IH. Qed.

Lemma String_app_inj_r (a b s : string) : a +:+ s = b +:+ s → a = b.
Proof.
  revert b. induction a as [|c a IH]; intros [|d b] H.
  - done.
  - apply (f_equal String.length) in H.
    rewrite String_app_nil, String_app_cons in H. simpl in H.
    rewrite String_length_app in H. lia.
  - apply (f_equal String.length) in H.
    rewrite String_app_nil, String_app_cons in H. simpl in H.
    rewrite String_length_app in H. lia.
  - rewrite !String_app_cons in H. injection H as -> H. by rewrite (IH b H).
Qed.

Ltac string_literals H :=
  rewrite ?String_app_cons, ?String_app_nil in H; simplify_eq.

(** The final segment of [dir/f] is [f] when [f] has no slash. *)
Lemma last_part_app (dir f : string) :
  has_slash f = false →
  last_part (split_slash (dir +:+ "/" +:+ f)) = f.
Proof.
  intros Hf. apply last_part_last.
  induction dir as [|c dir IH].
  - rewrite String_app_nil, String_app_cons, String_app_nil. simpl.
    by rewrite (split_slash_bare f Hf).
  - rewrite String_app_cons. simpl.
    destruct (Ascii.eqb c "/"); [by rewrite last_cons, IH|].
    destruct (split_slash_user (dir +:+ "/" +:+ f)) as (d & f' & h & t & _ & _ & Hsp & Hl).
    { rewrite has_slash_app. simpl. apply orb_true_r. }
    rewrite Hsp in IH |- *. destruct t as [|h' t]; [done|].
    by rewrite last_cons_cons in IH |- *.
Qed.

(** Two references with the same non-null key have the same kind and are
    both user references or both bare; bare ones are the same name, user
    ones have the same final segment. *)
Lemma resolver_same_key (t1 t2 m1 m2 k : string) :
  getFilepathForLoadable t1 (Some m1) = Normal (Some k) →
  getFilepathForLoadable t2 (Some m2) = Normal (Some k) →
  t1 = t2 ∧ has_slash m1 = has_slash m2
  ∧ (has_slash m1 = false → m1 = m2)
  ∧ (has_slash m1 = true →
     last_part (split_slash m1) = last_part (split_slash m2)).
Proof.
  unfold getFilepathForLoadable.
  destruct (has_slash m1), (has_slash m2);
    destruct (String.eqb_spec t1 "character"); try subst t1;
    destruct (String.eqb_spec t2 "character"); try subst t2;
    try (destruct (String.eqb_spec t1 "object"); try subst t1);
    try (destruct (String.eqb_spec t2 "object"); try subst t2);
    try (destruct (String.eqb_spec t1 "environment"); try subst t1);
    try (destruct (String.eqb_spec t2 "environment"); try subst t2);
    intros H1 H2; try discriminate;
    injection H1 as <-; injection H2 as H2;
    string_literals H2; try done.
  - apply String_app_inj_r in H2 as ->. done.
  - apply String_app_inj_r in H2 as ->. done.
Qed.

(** X6. The keys of the resolver collide only inside one kind and one
    namespace: two references with the same key have the same kind, are
    both user references with the same final path segment or are the same
    bare name.  User references do collide: the directories of the
    reference are dropped, so that any two paths with the same final
    segment resolve to the same key. *)
Theorem resolver_key_collisions :
  (∀ t1 t2 m1 m2 k,
     getFilepathForLoadable t1 (Some m1) = Normal (Some k) →
     getFilepathForLoadable t2 (Some m2) = Normal (Some k) →
     t1 = t2 ∧ has_slash m1 = has_slash m2
     ∧ (has_slash m1 = false → m1 = m2)
     ∧ (has_slash m1 = true →
        last_part (split_slash m1) = last_part (split_slash m2)))
  ∧ (∀ t dir1 dir2 f,
       has_slash f = false →
       getFilepathForLoadable t (Some (dir1 +:+ "/" +:+ f))
       = getFilepathForLoadable t (Some (dir2 +:+ "/" +:+ f))).
Proof.
  split; [apply resolver_same_key|].
  intros t dir1 dir2 f Hf. unfold getFilepathForLoadable.
  rewrite !has_slash_app. simpl. rewrite !orb_true_r.
  by rewrite !(last_part_app _ f Hf).
Qed.

Lemma resolver_key_collisions_witness :
  getFilepathForLoadable "object" (Some ("props/old" +:+ "/" +:+ "chair.glb"))
  = getFilepathForLoadable "object" (Some ("props/new" +:+ "/" +:+ "chair.glb"))
  ∧ last_part (split_slash "props/old/chair.glb")
    = last_part (split_slash "props/new/chair.glb").
Proof.
  split.
  - apply (proj2 resolver_key_collisions "object" "props/old" "props/new" "chair.glb").
    reflexivity.
  - destruct (proj1 resolver_key_collisions "object" "object"
                "props/old/chair.glb" "props/new/chair.glb"
                "/data/user/objects/chair.glb") as (_ & _ & _ & H);
      [reflexivity|reflexivity|].
    apply H. reflexivity.
Defined.

(** ** The scene content *)

Lemma getModelData_returns (attachments : State) (o : SceneObject) :
  match getModelData attachments o with
  | Normal _ => model o ≠ None
  | Throw _ => model o = None
  end.
Proof.
  unfold getModelData. destruct (model o) as [m|]; [|done].
  destruct (getFilepathForLoadable_returns (type o) m) as [key ->].
  by destruct (attachments !! to_key key).
Qed.

Lemma sceneElement_cases (attachments : State) (i : nat) (o : SceneObject) :
  match sceneElement attachments i o with
  | Normal (Some e) =>
      rendered_type o ∧ element_object e = o ∧ element_key e = i
      ∧ (reads_model o → model o ≠ None)
      ∧ (∀ modelData, element_model_data e = Some modelData →
                      getModelData attachments o = Normal modelData)
  | Normal None => ¬ rendered_type o ∧ ¬ reads_model o
  | Throw _ => reads_model o ∧ model o = None
  end.
Proof.
  unfold sceneElement, rendered_type, reads_model.
  pose proof (getModelData_returns attachments o) as Hm.
  destruct (String.eqb_spec (type o) "camera") as [E|Ecam].
  { rewrite E. repeat split; [by left|by intros [?|?]|done]. }
  destruct (String.eqb_spec (type o) "character") as [E|Echar].
  { rewrite E. destruct (getModelData attachments o) as [v|]; [|by split; [left|]].
    repeat split; [by right; left|done|]. by intros md [= <-]. }
  destruct (String.eqb_spec (type o) "object") as [E|Eobj].
  { rewrite E. destruct (getModelData attachments o) as [v|]; [|by split; [right|]].
    repeat split; [by right; right; left|done|]. by intros md [= <-]. }
  destruct (String.eqb_spec (type o) "light") as [E|Elight].
  { rewrite E. repeat split; [by right; right; right; left|by intros [?|?]|done]. }
  split; [|by intros [?|?]].
  intros H. repeat (apply elem_of_cons in H as [H|H]; [done|]).
  by apply elem_of_nil in H.
Qed.

Lemma Array_map_sceneElement (attachments : State) (i : nat) (l : list SceneObject) :
  match Array_map (sceneElement attachments) i l with
  | Normal ys =>
      (∀ o, o ∈ l → reads_model o → model o ≠ None)
      ∧ element_object <$> omap (fun e => e) ys = filter rendered_type l
      ∧ (∀ e, e ∈ omap (fun e => e) ys →
              (∃ j, element_key e = (i + j)%nat ∧ l !! j = Some (element_object e))
              ∧ ∀ modelData, element_model_data e = Some modelData →
                  getModelData attachments (element_object e) = Normal modelData)
  | Throw _ => ∃ o, o ∈ l ∧ reads_model o ∧ model o = None
  end.
Proof.
  revert i. induction l as [|o l IH]; intros i; simpl.
  - split; [by intros o H%elem_of_nil|]. split; [done|]. by intros e H%elem_of_nil.
  - pose proof (sceneElement_cases attachments i o) as Ho.
    destruct (sceneElement attachments i o) as [[e|]|].
    + destruct Ho as (Hr & He & Hi & Hm & Hd). specialize (IH (S i)).
      destruct (Array_map (sceneElement attachments) (S i) l) as [ys|].
      * destruct IH as (Hall & Hobj & Hkeys). split; [|split].
        -- intros o' [->|Ho']%elem_of_cons; [done|by apply Hall].
        -- rewrite filter_cons_True by done. rewrite <- Hobj, <- He. reflexivity.
        -- simpl. intros e' [->|He']%elem_of_cons.
           ++ split; [|by rewrite He]. exists 0%nat. rewrite He. split; [lia|done].
           ++ destruct (Hkeys e' He') as [(j & Hj & Hl) Hd']. split; [|done].
              exists (S j). split; [lia|done].
      * destruct IH as (o' & Ho' & Hr' & Hm'). exists o'.
        split; [by apply elem_of_cons; right|done].
    + destruct Ho as (Hr & Hm). specialize (IH (S i)).
      destruct (Array_map (sceneElement attachments) (S i) l) as [ys|].
      * destruct IH as (Hall & Hobj & Hkeys). split; [|split].
        -- intros o' [->|Ho']%elem_of_cons; [done|by apply Hall].
        -- rewrite filter_cons_False by done. rewrite <- Hobj. reflexivity.
        -- simpl. intros e' He'. destruct (Hkeys e' He') as [(j & Hj & Hl) Hd'].
           split; [|done]. exists (S j). split; [lia|done].
      * destruct IH as (o' & Ho' & Hr' & Hm'). exists o'.
        split; [by apply elem_of_cons; right|done].
    + destruct Ho as (Hr & Hm). exists o. split; [by apply elem_of_cons; left|done].
Qed.

(** X7. [SceneContent] returns exactly when every character and object of
    the scene has a model; a character or an object without one makes it
    throw.  When it returns, its elements are the scene objects of the four
    rendered types in the order of the scene, the others are dropped, the
    key of an element is the index of its object in the scene, and the
    model data of a character or object element is what [getModelData]
    gives for its object. *)
Theorem scene_content_elements (attachments : State) (sceneObjects : SceneObjects) :
  ((∃ elements, SceneContent attachments sceneObjects = Normal elements) ↔
   (∀ o, o ∈ Object_values sceneObjects → reads_model o → model o ≠ None))
  ∧ (∀ elements, SceneContent attachments sceneObjects = Normal elements →
       element_object <$> elements = filter rendered_type (Object_values sceneObjects)
       ∧ ∀ e, e ∈ elements →
           Object_values sceneObjects !! element_key e = Some (element_object e)
           ∧ ∀ modelData, element_model_data e = Some modelData →
               getModelData attachments (element_object e) = Normal modelData).
Proof.
  unfold SceneContent.
  pose proof (Array_map_sceneElement attachments 0 (Object_values sceneObjects)) as H.
  destruct (Array_map (sceneElement attachments) 0 (Object_values sceneObjects))
    as [ys|err].
  - destruct H as (Hall & Hobj & Hkeys). split; [split; [done|by eexists]|].
    intros elements [= <-]. split; [done|]. intros e He.
    destruct (Hkeys e He) as [(j & -> & Hl) Hd]. done.
  - destruct H as (o & Ho & Hr & Hm). split; [|done]. split.
    + by intros [elements H].
    + intros Hall. by destruct (Hall o Ho Hr).
Qed.

Lemma scene_content_elements_witness :
  (∃ elements, SceneContent chair_loaded scenario_objects = Normal elements)
  ∧ element_object
    <$> [SGCharacter 0 VUndefined orc; SGModel 1 VUndefined box_object;
         SGSpotLight 2 lamp]
    = filter rendered_type (Object_values scenario_objects).
Proof.
  destruct (scene_content_elements chair_loaded scenario_objects) as [Hret Hels].
  split.
  - apply Hret. intros o Ho Hr. vm_compute in Ho.
    repeat (apply elem_of_cons in Ho as [->|Ho]; [try discriminate|]).
    + destruct Hr as [Hr|Hr]; discriminate Hr.
    + by apply elem_of_nil in Ho.
  - apply (Hels [SGCharacter 0 VUndefined orc; SGModel 1 VUndefined box_object;
                 SGSpotLight 2 lamp]).
    vm_compute. reflexivity.
Defined.

(** ** The hook driven by its renders and by the loader *)

Lemma reducer_PENDING (state : State) (i : option string) :
  reducer state (PENDING i)
  = Normal (match state !! to_key i with
            | Some _ => state
            | None => <[to_key i := not_asked_entry]> state
            end).
Proof. unfold reducer. simpl. by destruct (state !! to_key i). Qed.

Lemma beginLoad_absent (k : string) (h : Hook) :
  attachments h !! k = None →
  beginLoad k h
  = (Throw TypeError, {| attachments := attachments h; loaderCalls := loaderCalls h ++ [k] |}).
Proof.
  intros Hk. unfold beginLoad, eff_bind, gltfLoader_load, dispatch, reducer. simpl.
  by rewrite Hk.
Qed.

Lemma useAttachmentLoader_keeps (P : Hook → Prop) sceneObjects world sc ac (h : Hook) :
  (∀ o h, P h → P (request o h).2) →
  (∀ k h, P h → P (beginLoad k h).2) →
  P h → P (useAttachmentLoader sceneObjects world sc ac h).2.
Proof.
  intros Hrequest Hbegin Hh.
  assert (P (useMemo sc (requestEffect sceneObjects world) h).2) as H1.
  { destruct sc; [|done]. by apply (forEach_preserves P). }
  destruct (useAttachmentLoader_result sceneObjects world sc ac h) as [-> | ->];
    [done|].
  by apply (forEach_preserves P).
Qed.

Lemma request_loaded (o : SceneObject) (h : Hook) :
  loaded_unless_not_asked h → loaded_unless_not_asked (request o h).2.
Proof.
  intros HL. unfold request.
  destruct (getFilepathForLoadable _ _) as [i|]; [|done].
  unfold dispatch. rewrite reducer_PENDING.
  destruct (attachments h !! to_key i) eqn:E; intros k entry Hk; simpl in *.
  - by apply HL.
  - destruct (decide (k = to_key i)) as [->|Hne].
    + rewrite lookup_insert_eq in Hk. injection Hk as <-. by left.
    + rewrite lookup_insert_ne in Hk by done. by apply HL.
Qed.

Lemma beginLoad_loaded (k : string) (h : Hook) :
  loaded_unless_not_asked h → loaded_unless_not_asked (beginLoad k h).2.
Proof.
  intros HL. destruct (attachments h !! k) as [entry|] eqn:E.
  - destruct (beginLoad_present k h entry E) as (state & -> & Hst & _).
    intros k' e' Hk'. simpl in *. rewrite elem_of_app, list_elem_of_singleton.
    destruct (decide (k' = k)) as [->|Hne]; [by right; right|].
    destruct Hst as [Hst|Hst]; rewrite Hst in Hk'.
    + destruct (HL k' e' Hk'); tauto.
    + rewrite lookup_insert_ne in Hk' by done. destruct (HL k' e' Hk'); tauto.
  - rewrite (beginLoad_absent k h E). intros k' e' Hk'. simpl in *.
    rewrite elem_of_app. destruct (HL k' e' Hk'); tauto.
Qed.

Lemma callback_key_called (h : Hook) (action : Action) :
  loader_callback h action → key_of action ∈ loaderCalls h.
Proof. by intros [k v Hk|k p Hk|k e Hk]. Qed.

Lemma callback_loaded (h : Hook) (action : Action) :
  loaded_unless_not_asked h → loader_callback h action →
  loaded_unless_not_asked (dispatch action h).2.
Proof.
  intros HL Hcb%callback_key_called. unfold dispatch.
  destruct (reducer (attachments h) action) as [state|] eqn:H; [|done].
  intros k entry Hk. simpl in *.
  destruct (reducer_result _ _ _ H) as [->|(e & -> & _)]; [by apply HL|].
  destruct (decide (k = key_of action)) as [->|Hne]; [by right|].
  rewrite lookup_insert_ne in Hk by done. by apply HL.
Qed.

Lemma beginLoad_keys (k : string) (h : Hook) (k' : string) :
  is_Some (attachments (beginLoad k h).2 !! k') → is_Some (attachments h !! k').
Proof.
  destruct (attachments h !! k) as [entry|] eqn:E.
  - destruct (beginLoad_present k h entry E) as (state & -> & Hst & _). simpl.
    destruct Hst as [-> | ->]; [done|].
    destruct (decide (k' = k)) as [->|Hne];
      [by rewrite E|by rewrite lookup_insert_ne].
  - by rewrite (beginLoad_absent k h E).
Qed.

Lemma requestMemo_returns sceneObjects world sc (h : Hook) :
  (useMemo sc (requestEffect sceneObjects world) h).1 = Normal ().
Proof.
  destruct sc; [|done].
  apply forEach_request_entries. apply loadables_have_model.
Qed.

Lemma requestMemo_keys sceneObjects world sc (h : Hook) :
  keys_requestable h →
  keys_requestable (useMemo sc (requestEffect sceneObjects world) h).2.
Proof.
  destruct sc; [|done]. intros HR k Hk.
  destruct (forEach_request_entries (loadables sceneObjects world) h) as [_ Hdom].
  { apply loadables_have_model. }
  apply Hdom in Hk as [Hk|(o & i & Ho & Hi & ->)]; [by apply HR|].
  by exists sceneObjects, world, o, i.
Qed.

(** What holds when only the renders and the loader dispatch. *)
Lemma mounted_run_inv (h : Hook) :
  mounted_run h → hook_inv h ∧ loaded_unless_not_asked h ∧ keys_requestable h.
Proof.
  induction 1 as [|h sceneObjects world sc ac Hrun (Hinv & HL & HR)
                  |h action Hrun (Hinv & HL & HR) Hcb].
  - split; [apply mounted_inv|]. split.
    + intros k entry Hk. cbn in Hk. by rewrite lookup_empty in Hk.
    + intros k [entry Hk]. cbn in Hk. by rewrite lookup_empty in Hk.
  - split; [by apply useAttachmentLoader_inv|]. split.
    + apply (useAttachmentLoader_keeps loaded_unless_not_asked); try done.
      * apply request_loaded.
      * apply beginLoad_loaded.
    + pose proof (requestMemo_keys sceneObjects world sc h HR) as H1.
      destruct (useAttachmentLoader_result sceneObjects world sc ac h) as [-> | ->];
        [done|].
      apply (forEach_preserves keys_requestable); [|done].
      intros k h' Hh' k' Hk'. by apply Hh', (beginLoad_keys k).
  - split; [by apply dispatch_inv|]. split; [by apply callback_loaded|].
    intros k Hk. apply HR. revert Hk. unfold dispatch.
    destruct (reducer (attachments h) action) as [state|] eqn:H; [|done]. simpl.
    destruct (reducer_result _ _ _ H) as [->|(e & -> & _)]; [done|].
    destruct (decide (k = key_of action)) as [->|Hne];
      [|by rewrite lookup_insert_ne].
    intros _. apply callback_key_called in Hcb.
    destruct (inv_asked h Hinv _ Hcb) as (e' & He' & _). by exists e'.
Qed.

(** ** The box *)

Lemma requestable_not_box : ¬ requestable box_url.
Proof.
  intros (sceneObjects & world & o & i & Ho & Hr & Hk).
  destruct i as [key|]; [|discriminate Hk]. simpl in Hk. subst key.
  destruct (loadables_have_model _ _ _ Ho) as [m Hm]. rewrite Hm in Hr.
  destruct (resolver_same_key (type o) "object" m "box" box_url Hr eq_refl)
    as (Ht & Hs & Hbare & _).
  rewrite (Hbare Hs) in Hm.
  rewrite loadables_split, elem_of_app in Ho. destruct Ho as [Ho|Ho].
  - apply list_elem_of_filter in Ho as [(_ & _ & Hbox) _]. by apply Hbox.
  - unfold environment_loadables in Ho.
    destruct (file (environment world)) as [f|]; [|by apply elem_of_nil in Ho].
    destruct (decide (f = "")); [by apply elem_of_nil in Ho|].
    apply list_elem_of_singleton in Ho as ->. discriminate Ht.
Qed.

(** X8. The box is never in the cache: when only the renders of the hook
    and the callbacks of the loader dispatch, no state has an entry under
    the key of the object "box", whatever the scenes were, and
    [getModelData] gives undefined for every box object. *)
Theorem box_never_cached (h : Hook) (o : SceneObject) :
  mounted_run h →
  type o = "object" →
  model o = Some "box" →
  getFilepathForLoadable (type o) (model o) = Normal (Some box_url)
  ∧ attachments h !! box_url = None
  ∧ (box_url ∉ loaderCalls h)
  ∧ getModelData (attachments h) o = Normal VUndefined.
Proof.
  intros (Hinv & _ & HR)%mounted_run_inv Ht Hm.
  assert (attachments h !! box_url = None) as Hnone.
  { destruct (attachments h !! box_url) as [entry|] eqn:E; [|done].
    destruct requestable_not_box. apply HR. by exists entry. }
  unfold getModelData. rewrite Ht, Hm. simpl.
  change ("/data/system/objects/" +:+ "box" +:+ ".glb") with box_url.
  rewrite Hnone. split; [done|]. split; [done|]. split; [|done].
  intros Hin. destruct (inv_asked h Hinv _ Hin) as (e & He & _). congruence.
Qed.

Lemma box_never_cached_witness :
  attachments
    (dispatch (SUCCESS orc_url (VObject 7))
       (useAttachmentLoader scenario_objects no_environment false true
          (useAttachmentLoader scenario_objects no_environment true true mounted).2).2).2
    !! box_url = None.
Proof.
  apply (box_never_cached _ box_object); [|reflexivity|reflexivity].
  apply run_callback; [apply run_render, run_render, run_mount|].
  apply callback_success. vm_compute. left.
Defined.

(** ** Two renders load the scene *)

Lemma requestEffect_noop (l : list SceneObject) (h : Hook) :
  (∀ o, o ∈ l → ∃ i, getFilepathForLoadable (type o) (model o) = Normal i
                     ∧ is_Some (attachments h !! to_key i)) →
  forEach request l h = (Normal (), h).
Proof.
  induction l as [|o l IH]; intros Hl; simpl; [done|].
  destruct (Hl o) as (i & Hi & [entry He]); [by apply elem_of_cons; left|].
  assert (request o h = (Normal (), h)) as Hr.
  { unfold request, dispatch. rewrite Hi, reducer_PENDING, He. by destruct h. }
  unfold eff_bind. rewrite Hr. apply IH.
  intros o' Ho'. apply Hl, elem_of_cons. by right.
Qed.

Lemma beginLoad_keeps_key (k : string) (h : Hook) (k' : string) :
  is_Some (attachments h !! k') → is_Some (attachments (beginLoad k h).2 !! k').
Proof.
  apply (beginLoad_keeps_P (fun h => is_Some (attachments h !! k'))); [|done].
  intros action h' Hh'. unfold dispatch.
  destruct (reducer (attachments h') action) as [state|] eqn:H; [|done].
  simpl. by eapply reducer_keeps_key.
Qed.

(** After a render in which the first memo ran, every loadable of the
    scene has an entry. *)
Lemma rendered_scene_has_entries sceneObjects world ac (h : Hook) o i :
  o ∈ loadables sceneObjects world →
  getFilepathForLoadable (type o) (model o) = Normal i →
  is_Some (attachments (useAttachmentLoader sceneObjects world true ac h).2 !! to_key i).
Proof.
  intros Ho Hi.
  assert (is_Some (attachments (useMemo true (requestEffect sceneObjects world) h).2
                   !! to_key i)) as H1.
  { destruct (forEach_request_entries (loadables sceneObjects world) h) as [_ Hdom].
    { apply loadables_have_model. }
    apply Hdom. right. by exists o, i. }
  destruct (useAttachmentLoader_result sceneObjects world true ac h) as [-> | ->];
    [done|].
  apply (forEach_preserves (fun h => is_Some (attachments h !! to_key i))); [|done].
  intros k h'. apply beginLoad_keeps_key.
Qed.

(** A render in which the second memo runs: the loader is called with the
    keys that are NotAsked in the state of the render, and with no other. *)
Lemma useAttachmentLoader_begin sceneObjects world sc (h : Hook) :
  let h1 := (useMemo sc (requestEffect sceneObjects world) h).2 in
  ∃ state,
    useAttachmentLoader sceneObjects world sc true h
    = (Normal (attachments h),
       {| attachments := state;
          loaderCalls := loaderCalls h ++ not_asked (attachments h) |})
    ∧ forEach beginLoad (not_asked (attachments h)) h1
      = (Normal (),
         {| attachments := state;
            loaderCalls := loaderCalls h ++ not_asked (attachments h) |})
    ∧ (∀ k, is_Some (attachments h1 !! k) → is_Some (state !! k))
    ∧ (∀ k, k ∉ not_asked (attachments h) → state !! k = attachments h1 !! k).
Proof.
  intros h1.
  destruct (forEach_beginLoad_calls (not_asked (attachments h)) h1)
    as (state & Hf & Hmono & Hframe).
  { intros k (entry & Hk & _)%elem_of_not_asked. exists entry.
    by apply requestMemo_keeps. }
  exists state. unfold h1 in Hf. rewrite requestMemo_calls in Hf.
  split; [|done]. unfold useAttachmentLoader, eff_bind.
  pose proof (requestMemo_returns sceneObjects world sc h) as Hret.
  destruct (useMemo sc (requestEffect sceneObjects world) h) as [r h1'] eqn:E.
  simpl in Hret. subst r. unfold useMemo at 1, beginLoadEffect.
  unfold h1 in Hf. simpl in Hf. by rewrite Hf.
Qed.

(** X9. When only the renders and the loader dispatch, two renders load a
    scene: after a render in which the scene memo ran and one more render
    in which the cache memo ran, the loader has been called once and only
    once with the key of every loadable of the scene. *)
Theorem loadable_loaded_exactly_once (h : Hook) sceneObjects world ac
    sceneObjects' world' sc' (o : SceneObject) (i : option string) :
  mounted_run h →
  o ∈ loadables sceneObjects world →
  getFilepathForLoadable (type o) (model o) = Normal i →
  count_occ String.string_dec
    (loaderCalls
       (useAttachmentLoader sceneObjects' world' sc' true
          (useAttachmentLoader sceneObjects world true ac h).2).2)
    (to_key i) = 1%nat.
Proof.
  intros Hrun Ho Hi.
  set (h1 := (useAttachmentLoader sceneObjects world true ac h).2).
  assert (mounted_run h1) as Hrun1 by (by apply run_render).
  destruct (mounted_run_inv h1 Hrun1) as (Hinv1 & HL1 & _).
  destruct (rendered_scene_has_entries sceneObjects world ac h o i Ho Hi)
    as [entry Hentry]. fold h1 in Hentry.
  pose proof (useAttachmentLoader_inv sceneObjects' world' sc' true h1 Hinv1) as Hinv2.
  destruct (useAttachmentLoader_begin sceneObjects' world' sc' h1)
    as (state & Heq & _). rewrite Heq in Hinv2 |- *. simpl in *.
  assert (to_key i ∈ loaderCalls h1 ++ not_asked (attachments h1)) as Hin.
  { apply elem_of_app. destruct (HL1 _ _ Hentry) as [Hna|Hc]; [right|by left].
    apply elem_of_not_asked. by exists entry. }
  apply list_elem_of_In in Hin.
  apply (count_occ_In String.string_dec) in Hin.
  pose proof (inv_calls _ Hinv2) as Hnd. simpl in Hnd.
  apply NoDup_ListNoDup in Hnd.
  rewrite (NoDup_count_occ String.string_dec) in Hnd. specialize (Hnd (to_key i)).
  lia.
Qed.

Lemma loadable_loaded_exactly_once_witness :
  count_occ String.string_dec
    (loaderCalls
       (useAttachmentLoader [] no_environment false true
          (useAttachmentLoader scenario_objects forest_world true false mounted).2).2)
    "/data/user/environments/forest.glb" = 1%nat.
Proof.
  apply (loadable_loaded_exactly_once mounted scenario_objects forest_world false
           [] no_environment false (environment_loadable "scenes/forest.glb")
           (Some "/data/user/environments/forest.glb")).
  - apply run_mount.
  - vm_compute. right. left.
  - reflexivity.
Defined.

(** ** The renders settle *)

Lemma forEach_beginLoad_loading (ks : list string) (h : Hook) (k : string) :
  no_loading (attachments h) →
  (∀ k, k ∈ ks → is_Some (attachments h !! k)) →
  k ∈ ks →
  attachments (forEach beginLoad ks h).2 !! k = Some loading_entry.
Proof.
  revert h. induction ks as [|k0 ks IH]; intros h Hnl Hks Hk; simpl.
  { by apply elem_of_nil in Hk. }
  destruct (Hks k0) as [entry Hentry]; [by apply elem_of_cons; left|].
  destruct (beginLoad_present k0 h entry Hentry) as (state & Hb & _ & Hst).
  specialize (Hst (Hnl k0 entry Hentry)). subst state.
  unfold eff_bind. rewrite Hb.
  set (h1 := {| attachments := <[k0:=loading_entry]> (attachments h);
                loaderCalls := loaderCalls h ++ [k0] |}).
  assert (∀ k', k' ∈ ks → is_Some (attachments h1 !! k')) as Hks1.
  { intros k' Hk'. simpl. destruct (decide (k' = k0)) as [->|Hne];
      [by rewrite lookup_insert_eq|].
    rewrite lookup_insert_ne by done. apply Hks, elem_of_cons. by right. }
  destruct (decide (k ∈ ks)) as [Hin|Hnin].
  - apply IH; [|done|done]. intros k' e. simpl.
    destruct (decide (k' = k0)) as [->|Hne].
    + rewrite lookup_insert_eq. by intros [= <-].
    + rewrite lookup_insert_ne by done. apply Hnl.
  - apply elem_of_cons in Hk as [->|Hk]; [|done].
    destruct (forEach_beginLoad_calls ks h1 Hks1) as (state & -> & _ & Hframe).
    simpl. rewrite Hframe by done. simpl. by rewrite lookup_insert_eq.
Qed.

Lemma not_asked_nil (state : State) :
  (∀ k entry, state !! k = Some entry → status_is entry "NotAsked" = false) →
  not_asked state = [].
Proof.
  intros H. apply elem_of_nil_inv. intros k (entry & Hk & Hst)%elem_of_not_asked.
  rewrite (H k entry Hk) in Hst. done.
Qed.

(** X10. The renders of a scene settle.  From any state that the mounted
    hook has reached, after a render in which the scene memo ran and one
    more render of the same scene in which the cache memo ran, no entry is
    NotAsked, and every further render of that scene returns the same
    state and leaves the hook as it is: it dispatches nothing that changes
    the cache and calls the loader no more. *)
Theorem render_settles (evs : list LoopEvent) sceneObjects world ac sc sc' ac' :
  let h2 :=
    (useAttachmentLoader sceneObjects world sc true
       (useAttachmentLoader sceneObjects world true ac (run evs mounted)).2).2 in
  not_asked (attachments h2) = []
  ∧ useAttachmentLoader sceneObjects world sc' ac' h2 = (Normal (attachments h2), h2).
Proof.
  set (h := run evs mounted).
  set (h1 := (useAttachmentLoader sceneObjects world true ac h).2).
  intros h2.
  assert (hook_inv h1) as Hinv1.
  { apply useAttachmentLoader_inv, run_inv, mounted_inv. }
  assert (∀ o, o ∈ loadables sceneObjects world →
               ∃ i, getFilepathForLoadable (type o) (model o) = Normal i
                    ∧ is_Some (attachments h1 !! to_key i)) as Hkeys1.
  { intros o Ho. destruct (loadables_have_model _ _ _ Ho) as [m Hm].
    destruct (getFilepathForLoadable_returns (type o) m) as [i Hi].
    rewrite <- Hm in Hi. exists i. split; [done|].
    by apply (rendered_scene_has_entries sceneObjects world ac h o i). }
  assert (∀ b h', (∀ o, o ∈ loadables sceneObjects world →
                        ∃ i, getFilepathForLoadable (type o) (model o) = Normal i
                             ∧ is_Some (attachments h' !! to_key i)) →
                  useMemo b (requestEffect sceneObjects world) h' = (Normal (), h'))
    as Hnoop.
  { intros [|] h' Hh'; [|done]. by apply requestEffect_noop. }
  destruct (useAttachmentLoader_begin sceneObjects world sc h1)
    as (state & Heq & Hf & Hmono & Hframe).
  rewrite (Hnoop sc h1 Hkeys1) in Hf, Hmono, Hframe. cbn [snd] in Hf, Hmono, Hframe.
  assert (∀ k entry, attachments h2 !! k = Some entry →
                     status_is entry "NotAsked" = false) as Hnone.
  { intros k entry. unfold h2. rewrite Heq. simpl.
    destruct (decide (k ∈ not_asked (attachments h1))) as [Hin|Hnin].
    - pose proof (forEach_beginLoad_loading (not_asked (attachments h1)) h1 k
                    (inv_no_loading h1 Hinv1)) as Hl.
      rewrite Hf in Hl. simpl in Hl. rewrite Hl; [by intros [= <-]| |done].
      intros k' (e & He & _)%elem_of_not_asked. by exists e.
    - rewrite Hframe by done. intros Hk.
      destruct (status_is entry "NotAsked") eqn:Hst; [|done].
      destruct Hnin. apply elem_of_not_asked. by exists entry. }
  pose proof (not_asked_nil _ Hnone) as Hnil. split; [done|].
  assert (useMemo sc' (requestEffect sceneObjects world) h2 = (Normal (), h2)) as H1.
  { apply Hnoop. intros o Ho. destruct (Hkeys1 o Ho) as (i & Hi & Hsome).
    exists i. split; [done|]. unfold h2. rewrite Heq. simpl. by apply Hmono. }
  unfold useAttachmentLoader, eff_bind. rewrite H1.
  destruct ac'; [|done]. unfold useMemo, beginLoadEffect. by rewrite Hnil.
Qed.

(** ** The percent of a progress event *)



(** ** Completion events without a request *)

(** X12. The completion branches of the reducer do not look at the state:
    a SUCCESS, ERROR or PROGRESS action for a key that has no entry creates
    one.  A later request for that key is then ignored and no render calls
    the loader for it. *)
Theorem completion_without_request (state : State) (k : string) (action : Action)
    (v e : Val) (p : ProgressEvent) :
  state !! k = None →
  action ∈ [SUCCESS k v; ERROR k e; PROGRESS k p] →
  ∃ state' entry,
    reducer state action = Normal state'
    ∧ state' !! k = Some entry
    ∧ (k ∉ not_asked state')
    ∧ reducer state' (PENDING (Some k)) = Normal state'
    ∧ ∀ calls sceneObjects world sc ac,
        count_occ String.string_dec
          (loaderCalls
             (useAttachmentLoader sceneObjects world sc ac
                {| attachments := state'; loaderCalls := calls |}).2) k
        = count_occ String.string_dec calls k.
Proof.
  intros Hnone Hin.
  assert (∃ entry, reducer state action = Normal (<[k := entry]> state)
                   ∧ status_is entry "NotAsked" = false) as (entry & Hr & Hst).
  { repeat (apply elem_of_cons in Hin as [->|Hin]; [by eexists|]).
    by apply elem_of_nil in Hin. }
  exists (<[k := entry]> state), entry.
  assert (<[k := entry]> state !! k = Some entry) as Hk by apply lookup_insert_eq.
  assert (k ∉ not_asked (<[k := entry]> state)) as Hnot.
  { intros (e' & He' & Hs)%elem_of_not_asked. congruence. }
  split; [done|]. split; [done|]. split; [done|]. split.
  - rewrite reducer_PENDING. cbn [to_key]. by rewrite Hk.
  - intros calls sceneObjects world sc ac.
    by apply (useAttachmentLoader_frame sceneObjects world sc ac
                {| attachments := <[k := entry]> state; loaderCalls := calls |}
                k entry).
Qed.

Lemma completion_without_request_witness :
  ∃ state' entry,
    reducer ∅ (ERROR orc_url (VObject 4)) = Normal state'
    ∧ state' !! orc_url = Some entry
    ∧ reducer state' (PENDING (Some orc_url)) = Normal state'.
Proof.
  destruct (completion_without_request ∅ orc_url (ERROR orc_url (VObject 4))
              VUndefined (VObject 4) {| ev_loaded := 0; ev_total := 0 |})
    as (state' & entry & Hr & Hk & _ & Hp & _).
  - reflexivity.
  - apply elem_of_cons. right. apply elem_of_cons. left. reflexivity.
  - exists state', entry. split; [exact Hr|]. split; [exact Hk|exact Hp].
Defined.

(** ** The model of the world *)

(** X13. The model data of the world: the file itself when it is null or
    the empty string; for a file with a separator, the value of the entry
    under the user environments directory and the final segment of the
    file; for every bare file name, the value of the one entry under the
    key "null", whatever the name is. *)
Theorem world_model_data (attachments : State) (world : World) :
  (file (environment world) = None → worldModelData attachments world = Normal VNull)
  ∧ (file (environment world) = Some "" →
     worldModelData attachments world = Normal (VStr ""))
  ∧ (∀ dir name,
       file (environment world) = Some (dir +:+ "/" +:+ name) →
       has_slash name = false →
       worldModelData attachments world
       = Normal (match attachments !! ("/data/user/environments/" +:+ name) with
                 | Some entry => get entry "value"
                 | None => VUndefined
                 end))
  ∧ (∀ f, file (environment world) = Some f → f ≠ "" → has_slash f = false →
          worldModelData attachments world
          = Normal (match attachments !! "null" with
                    | Some entry => get entry "value"
                    | None => VUndefined
                    end)).
Proof.
  unfold worldModelData. repeat split.
  - by intros ->.
  - by intros ->.
  - intros dir name -> Hname.
    assert (truthy (VStr (dir +:+ "/" +:+ name)) = true) as ->.
    { simpl. apply negb_true_iff, String.eqb_neq. intros E.
      apply (f_equal has_slash) in E. rewrite has_slash_app in E. simpl in E.
      by rewrite orb_true_r in E. }
    unfold getModelData, getFilepathForLoadable. simpl.
    rewrite has_slash_app. simpl. rewrite orb_true_r.
    rewrite (last_part_app dir name Hname). simpl.
    by destruct (attachments !! _).
  - intros f -> Hf Hbare.
    assert (truthy (VStr f) = true) as ->.
    { simpl. by apply negb_true_iff, String.eqb_neq. }
    unfold getModelData, getFilepathForLoadable. simpl. rewrite Hbare. simpl.
    by destruct (attachments !! "null").
Qed.

Lemma world_model_data_witness :
  worldModelData {[ "null" := success_entry (VObject 5) ]} bare_environment
  = Normal (VObject 5)
  ∧ worldModelData {[ "null" := success_entry (VObject 5) ]}
      {| environment := {| file := Some "desert.glb" |} |}
    = Normal (VObject 5).
Proof.
  split.
  - destruct (world_model_data {[ "null" := success_entry (VObject 5) ]} bare_environment)
      as (_ & _ & _ & H).
    rewrite (H "forest.glb"); [reflexivity|reflexivity|discriminate|reflexivity].
  - destruct (world_model_data {[ "null" := success_entry (VObject 5) ]}
                {| environment := {| file := Some "desert.glb" |} |})
      as (_ & _ & _ & H).
    rewrite (H "desert.glb"); [reflexivity|reflexivity|discriminate|reflexivity].
Defined.
